(** * PhoneStore data layer (src/db.js): cart, checkout, catalogue search

    A shallow embedding of the Firestore-backed data layer of the store,
    with the account routes and the description form of src/app.js.

    - Collections are finite maps from document ids to typed documents; a
      query returns the matching documents in the order of the store.
    - Numbers (ids, quantities, stock, prices in whole currency units,
      timestamps in milliseconds) are integers.
    - An asynchronous function is a state-passing function on the database;
      calls run one after the other.  The clock reading a function uses for
      [created_at] is an argument.
    - A Firestore transaction is a small monad: its body reads the snapshot
      taken when the transaction starts and buffers its writes, and
      [runTransaction] commits the buffer in one piece or not at all.
    - What the program takes from the JavaScript runtime's Unicode tables
      (NFD, lower-casing) is a class, with laws for ASCII text only. *)

From stdpp Require Import gmap strings list fin_maps sorting.
From Stdlib Require Import ZArith NArith Lia.

Open Scope Z_scope.

(** ** Strings

    A JavaScript string is a sequence of UTF-16 code units. *)

Abbreviation jsstring := (list N).

Fixpoint js (s : string) : jsstring :=
  match s with
  | EmptyString => []
  | String a s' => Ascii.N_of_ascii a :: js s'
  end.

Arguments js : simpl never.

(** ** Documents *)

Record product := Product {
  p_name : jsstring;
  p_description : jsstring;
  p_price : Z;
  p_image_url : jsstring;
  p_stock : Z;
  p_category : jsstring;
  p_created_at : Z
}.

Record cart_row := CartRow {
  c_user_id : Z;
  c_product_id : Z;
  c_quantity : Z
}.

Record order_item := OrderItem {
  i_product_id : Z;
  i_name : jsstring;
  i_quantity : Z;
  i_price_at_purchase : Z
}.

Record shipping := Shipping {
  shipping_name : jsstring;
  shipping_phone : jsstring;
  shipping_address : jsstring
}.

Record order := Order {
  o_user_id : Z;
  o_total_amount : Z;
  o_status : jsstring;
  o_shipping_name : jsstring;
  o_shipping_phone : jsstring;
  o_shipping_address : jsstring;
  o_created_at : Z;
  o_items : list order_item
}.

(** The database: one finite map per collection.  A cart document lives under
    the id [`${uId}_${pId}`], which is injective in the pair, so the cart
    collection is keyed by the pair itself; products and orders live under
    [String(id)] and are keyed by the number. *)
Record firestore := Firestore {
  products : gmap Z product;
  cart_items : gmap (Z * Z) cart_row;
  orders : gmap Z order;
  counters : gmap string Z
}.

Definition set_products (f : gmap Z product -> gmap Z product) (db : firestore) : firestore :=
  Firestore (f (products db)) (cart_items db) (orders db) (counters db).

Definition set_cart_items (f : gmap (Z * Z) cart_row -> gmap (Z * Z) cart_row)
    (db : firestore) : firestore :=
  Firestore (products db) (f (cart_items db)) (orders db) (counters db).

Definition set_orders (f : gmap Z order -> gmap Z order) (db : firestore) : firestore :=
  Firestore (products db) (cart_items db) (f (orders db)) (counters db).

Definition set_counters (f : gmap string Z -> gmap string Z) (db : firestore) : firestore :=
  Firestore (products db) (cart_items db) (orders db) (f (counters db)).

(** [docToObject]: the document's data together with its numeric id, or
    [null] when the snapshot does not exist. *)
Definition docToObject {A} (id : Z) (snap : option A) : option (Z * A) :=
  match snap with
  | None => None
  | Some d => Some (id, d)
  end.

(** ** Results

    [outcome] separates a returned value from a thrown [Error]; [result] is
    the [{ok: true, ...}] / [{ok: false, error}] object the cart and checkout
    functions return. *)

Inductive outcome (A : Type) :=
| Return (a : A)
| Throw (message : jsstring).
Arguments Return {A} a.
Arguments Throw {A} message.

Inductive result (A : Type) :=
| Ok (a : A)
| Failed (error : jsstring).
Arguments Ok {A} a.
Arguments Failed {A} error.

(** ** Transactions *)

Inductive write :=
| SetCounter (key : string) (value : Z)
| SetCartItem (k : Z * Z) (row : cart_row)
| SetOrder (id : Z) (o : order)
| UpdateStock (pid : Z) (stock : Z)
| DeleteCartItem (k : Z * Z).

(** [{stock: st}] merged into a product document. *)
Definition with_stock (st : Z) (p : product) : product :=
  Product (p_name p) (p_description p) (p_price p) (p_image_url p) st
    (p_category p) (p_created_at p).

(** One buffered write applied at commit.  [tx.update] needs the document to
    exist; the others do not. *)
Definition apply_write (db : firestore) (w : write) : option firestore :=
  match w with
  | SetCounter key v => Some (set_counters <[key := v]> db)
  | SetCartItem k row => Some (set_cart_items <[k := row]> db)
  | SetOrder id o => Some (set_orders <[id := o]> db)
  | UpdateStock pid st =>
      match products db !! pid with
      | Some p =>
          Some (set_products <[pid := with_stock st p]> db)
      | None => None
      end
  | DeleteCartItem k => Some (set_cart_items (delete k) db)
  end.

Fixpoint commit (ws : list write) (db : firestore) : option firestore :=
  match ws with
  | [] => Some db
  | w :: ws' =>
      match apply_write db w with
      | Some db' => commit ws' db'
      | None => None
      end
  end.

Definition READ_AFTER_WRITE_ERROR_MSG : jsstring :=
  js "Firestore transactions require all reads to be executed before all writes.".

Definition NOT_FOUND_MSG : jsstring := js "NOT_FOUND: No document to update".

(** A transaction body: it sees the snapshot [db] taken at the start and the
    writes buffered so far, and either throws or returns a value with the
    extended buffer. *)
Definition tx (A : Type) : Type := firestore -> list write -> outcome (A * list write).

Definition tx_ret {A} (a : A) : tx A := fun _ ws => Return (a, ws).

Definition tx_bind {A B} (m : tx A) (k : A -> tx B) : tx B :=
  fun db ws =>
    match m db ws with
    | Return (a, ws') => k a db ws'
    | Throw e => Throw e
    end.

Definition tx_throw {A} (e : jsstring) : tx A := fun _ _ => Throw e.

(** [tx.set], [tx.update], [tx.delete]: buffered until commit. *)
Definition tx_write (w : write) : tx unit := fun _ ws => Return (tt, ws ++ [w]).

Notation "x <- m ;; k" := (tx_bind m (fun x => k))
  (at level 100, m at next level, right associativity, only parsing).

(** [db.runTransaction(body)]: run the body on the current snapshot and commit
    its writes together; when the body throws, or the commit fails, nothing is
    written and the error is thrown to the caller. *)
Definition runTransaction {A} (body : tx A) (db : firestore) : firestore * outcome A :=
  match body db [] with
  | Throw e => (db, Throw e)
  | Return (a, ws) =>
      match commit ws db with
      | Some db' => (db', Return a)
      | None => (db, Throw NOT_FOUND_MSG)
      end
  end.

(** The documents of [cart_items] whose [user_id] field is [uId]:
    [db.collection('cart_items').where('user_id', '==', uId).get()]. *)
Definition cart_of (uId : Z) (db : firestore) : list ((Z * Z) * cart_row) :=
  filter (fun d => c_user_id d.2 = uId) (map_to_list (cart_items db)).

(** [items.reduce((sum, i) => sum + price_at_purchase * quantity, 0)] *)
Definition order_total (items : list order_item) : Z :=
  foldl (fun sum i => sum + i_price_at_purchase i * i_quantity i) 0 items.

Definition TYPE_ERROR_MSG : jsstring :=
  js "Cannot read properties of undefined (reading 'stock')".

(** The message [createOrder] reports for a thrown error:
    [error.message || 'Order failed.'] *)
Definition order_error (message : jsstring) : jsstring :=
  match message with
  | [] => js "Order failed."
  | _ :: _ => message
  end.

Section Store.

(** Whether the store lets a transaction read after it has written.  The
    Firestore server SDK does not: [Transaction.get] throws
    [READ_AFTER_WRITE_ERROR_MSG] as soon as the write batch is non-empty. *)
Variable reads_after_writes : bool.

(** [tx.get(ref)] *)
Definition tx_get {A} (f : firestore -> A) : tx A :=
  fun db ws =>
    match ws with
    | [] => Return (f db, ws)
    | _ :: _ =>
        if reads_after_writes then Return (f db, ws)
        else Throw READ_AFTER_WRITE_ERROR_MSG
    end.

Definition nextId (key : string) : firestore -> firestore * outcome Z :=
  runTransaction
    (snap <- tx_get (fun db => counters db !! key) ;;
     let current :=
       match snap with
       | Some value => if value =? 0 then 1 else value
       | None => 1
       end in
     _ <- tx_write (SetCounter key (current + 1)) ;;
     tx_ret current).

Definition addToCart (userId productId quantity : Z)
    : firestore -> firestore * outcome (result unit) :=
  let cartRef := (userId, productId) in
  runTransaction
    (productSnap <- tx_get (fun db => products db !! productId) ;;
     match productSnap with
     | None => tx_ret (Failed (js "Product not found."))
     | Some product =>
         if p_stock product <? quantity
         then tx_ret (Failed (js "Not enough stock available."))
         else
           cartSnap <- tx_get (fun db => cart_items db !! cartRef) ;;
           let current :=
             match cartSnap with
             | Some c => c_quantity c
             | None => 0
             end in
           let newQty := Z.min (current + quantity) (p_stock product) in
           _ <- tx_write (SetCartItem cartRef (CartRow userId productId newQty)) ;;
           tx_ret (Ok tt)
     end).

(** First loop of the checkout transaction: re-read every product, validate
    the line against its stock and push the line's snapshot. *)
Fixpoint collect_items (cartDocs : list ((Z * Z) * cart_row)) (items : list order_item)
    : tx (list order_item) :=
  match cartDocs with
  | [] => tx_ret items
  | cDoc :: rest =>
      let c := cDoc.2 in
      pSnap <- tx_get (fun db => products db !! c_product_id c) ;;
      match pSnap with
      | None => tx_throw (js "Product not found in cart.")
      | Some p =>
          if c_quantity c >? p_stock p
          then tx_throw (js "Insufficient stock for " ++ p_name p ++ js ".")
          else
            collect_items rest
              (items ++ [OrderItem (c_product_id c) (p_name p) (c_quantity c) (p_price p)])
      end
  end.

(** Second loop: read the product again, decrement its stock and delete the
    cart document. *)
Fixpoint decrement_and_clear (cartDocs : list ((Z * Z) * cart_row)) : tx unit :=
  match cartDocs with
  | [] => tx_ret tt
  | cDoc :: rest =>
      let c := cDoc.2 in
      pSnap <- tx_get (fun db => products db !! c_product_id c) ;;
      match pSnap with
      | None => tx_throw TYPE_ERROR_MSG
      | Some p =>
          _ <- tx_write (UpdateStock (c_product_id c) (p_stock p - c_quantity c)) ;;
          _ <- tx_write (DeleteCartItem cDoc.1) ;;
          decrement_and_clear rest
      end
  end.

Definition order_transaction (uId orderId : Z) (sh : shipping) (now : Z)
    (cartDocs : list ((Z * Z) * cart_row)) : tx unit :=
  items <- collect_items cartDocs [] ;;
  let total := order_total items in
  _ <- tx_write
         (SetOrder orderId
            (Order uId total (js "Pending") (shipping_name sh) (shipping_phone sh)
               (shipping_address sh) now items)) ;;
  decrement_and_clear cartDocs.

(** [createOrder(userId, shipping)]; [now] is the clock reading used for
    [created_at]. *)
Definition createOrder (userId : Z) (sh : shipping) (now : Z) (db : firestore)
    : firestore * outcome (result (option (Z * order))) :=
  let cartSnap := cart_of userId db in
  match cartSnap with
  | [] => (db, Return (Failed (js "Your cart is empty.")))
  | _ :: _ =>
      match nextId "orders" db with
      | (db1, Throw e) => (db1, Throw e)
      | (db1, Return orderId) =>
          match runTransaction (order_transaction userId orderId sh now cartSnap) db1 with
          | (db2, Throw message) =>
              (db2, Return (Failed (order_error message)))
          | (db2, Return _) =>
              (db2, Return (Ok (docToObject orderId (orders db2 !! orderId))))
          end
      end
  end.

End Store.

(** The policy of the Firestore SDK the program is linked against. *)
Definition firestore_sdk : bool := false.

(** ** Cart operations outside transactions *)

Definition updateCartItem (userId productId quantity : Z) (db : firestore)
    : firestore * result bool :=
  let cartRef := (userId, productId) in
  if quantity <=? 0 then (set_cart_items (delete cartRef) db, Ok true)
  else
    match products db !! productId with
    | None => (db, Failed (js "Product not found."))
    | Some product =>
        (set_cart_items
           <[cartRef := CartRow userId productId (Z.min quantity (p_stock product))]> db,
         Ok false)
    end.

Definition removeCartItem (userId productId : Z) (db : firestore) : firestore :=
  set_cart_items (delete (userId, productId)) db.

(** ** Catalogue administration *)

(** The fields present in an update payload. *)
Record product_payload := ProductPayload {
  pl_name : option jsstring;
  pl_description : option jsstring;
  pl_price : option Z;
  pl_image_url : option jsstring;
  pl_stock : option Z;
  pl_category : option jsstring
}.

(** [ref.set(payload, {merge: true})] *)
Definition merge_product (payload : product_payload) (p : product) : product :=
  Product (default (p_name p) (pl_name payload))
          (default (p_description p) (pl_description payload))
          (default (p_price p) (pl_price payload))
          (default (p_image_url p) (pl_image_url payload))
          (default (p_stock p) (pl_stock payload))
          (default (p_category p) (pl_category payload))
          (p_created_at p).

Definition updateProduct (id : Z) (payload : product_payload) (db : firestore)
    : firestore * option (Z * product) :=
  match products db !! id with
  | None => (db, None)
  | Some p =>
      let db' := set_products <[id := merge_product payload p]> db in
      (db', docToObject id (products db' !! id))
  end.

Definition deleteProduct (id : Z) (db : firestore) : firestore :=
  set_cart_items (filter (fun d => c_product_id d.2 <> id))
    (set_products (delete id) db).

(** ** Sorting

    [Array.prototype.sort] with a comparator is a stable sort: [a] stays
    before [b] unless the comparator is positive on [(a, b)].  For a
    comparator that is a total preorder the result of a stable sort is
    unique; insertion from the right computes it. *)

Fixpoint sort_insert {A} (cmp : A -> A -> Z) (x : A) (l : list A) : list A :=
  match l with
  | [] => [x]
  | y :: l' => if cmp x y <=? 0 then x :: y :: l' else y :: sort_insert cmp x l'
  end.

Definition js_sort {A} (cmp : A -> A -> Z) (l : list A) : list A :=
  foldr (sort_insert cmp) [] l.

(** What the comparator says keeps [a] before [b]. *)
Definition keeps_before {A} (cmp : A -> A -> Z) (a b : A) : Prop := cmp a b <= 0.

(** ** Order history *)

(** [(a, b) => new Date(b.created_at) - new Date(a.created_at)] *)
Definition by_created_at_desc (a b : Z * order) : Z :=
  o_created_at b.2 - o_created_at a.2.

Definition listOrdersByUser (userId : Z) (db : firestore) : list (Z * order) :=
  js_sort by_created_at_desc
    (omap (fun d => docToObject d.1 (Some d.2))
       (filter (fun d => o_user_id d.2 = userId) (map_to_list (orders db)))).

(** ** Text normalisation and search *)

(** What the program takes from the JavaScript runtime's Unicode tables:
    canonical decomposition and lower-casing of whole strings.  Both leave
    the shape of ASCII text alone, which is all the laws say. *)
Definition is_ascii (c : N) : Prop := (c < 128)%N.

Definition ascii_lower (c : N) : N :=
  if ((65 <=? c) && (c <=? 90))%N then (c + 32)%N else c.

Class Unicode := {
  normalizeNFD : jsstring -> jsstring;
  toLowerCase : jsstring -> jsstring;
  normalizeNFD_ascii : forall s, Forall is_ascii s -> normalizeNFD s = s;
  toLowerCase_ascii : forall s, Forall is_ascii s -> toLowerCase s = ascii_lower <$> s
}.

(** The runtime restricted to its ASCII behaviour: exact on ASCII text,
    the identity on everything else. *)
Definition ascii_runtime : Unicode :=
  Build_Unicode (fun s => s) (fmap ascii_lower) (fun _ _ => eq_refl) (fun _ _ => eq_refl).

(** White space as [String.prototype.trim] and the regular expression class
    [\s] see it: TAB, LF, VT, FF, CR, SP, NBSP, U+1680, U+2000..U+200A,
    U+2028, U+2029, U+202F, U+205F, U+3000, U+FEFF. *)
Definition is_whitespace (c : N) : bool :=
  ((c =? 9) || (c =? 10) || (c =? 11) || (c =? 12) || (c =? 13) || (c =? 32)
   || (c =? 160) || (c =? 5760) || ((8192 <=? c) && (c <=? 8202))
   || (c =? 8232) || (c =? 8233) || (c =? 8239) || (c =? 8287)
   || (c =? 12288) || (c =? 65279))%N.

Fixpoint trimStart (s : jsstring) : jsstring :=
  match s with
  | [] => []
  | c :: s' => if is_whitespace c then trimStart s' else s
  end.

Definition trim (s : jsstring) : jsstring :=
  reverse (trimStart (reverse (trimStart s))).

(** The range U+0300..U+036F: the combining diacritical marks *)
Definition is_combining_mark (c : N) : bool := ((768 <=? c) && (c <=? 879))%N.

(** [.replace(/x/g, y)] for a single code unit [x] *)
Definition replace_unit (x y : N) (s : jsstring) : jsstring :=
  (fun c => if (c =? x)%N then y else c) <$> s.

Definition LATIN_SMALL_D_STROKE : N := 273.
Definition LATIN_CAPITAL_D_STROKE : N := 272.

(** [s.startsWith(key)], [s.includes(key)] *)
Fixpoint startsWith (s key : jsstring) : bool :=
  match key with
  | [] => true
  | k :: key' =>
      match s with
      | [] => false
      | c :: s' => (c =? k)%N && startsWith s' key'
      end
  end.

Fixpoint includes (s key : jsstring) : bool :=
  startsWith s key
  || match s with
     | [] => false
     | _ :: s' => includes s' key
     end.

(** [s.split(/\s+/)]: the pieces between maximal runs of white space; a
    leading or trailing run leaves an empty piece, and the empty string splits
    into one empty piece.  [in_gap] says the scan is inside a run. *)
Fixpoint split_ws (in_gap : bool) (piece : jsstring) (s : jsstring) : list jsstring :=
  match s with
  | [] => [piece]
  | c :: s' =>
      if is_whitespace c
      then if in_gap then split_ws true [] s' else piece :: split_ws true [] s'
      else split_ws false (piece ++ [c]) s'
  end.

(** [key.split(/\s+/).filter(Boolean)] *)
Definition query_tokens (key : jsstring) : list jsstring :=
  filter (fun t => t <> []) (split_ws false [] key).

(** The candidate set of a listing: all products, or those of the category
    when one is given, as objects. *)
Definition candidates (category : jsstring) (db : firestore) : list (Z * product) :=
  let docs := map_to_list (products db) in
  let docs :=
    match category with
    | [] => docs
    | _ :: _ => filter (fun d => p_category d.2 = category) docs
    end in
  omap (fun d => docToObject d.1 (Some d.2)) docs.

(** [(a, b) => new Date(b.created_at) - new Date(a.created_at)] *)
Definition newest_first (a b : Z * product) : Z :=
  p_created_at b.2 - p_created_at a.2.

(** [(a, b) => b.score - a.score || new Date(b.product.created_at) - new Date(a.product.created_at)] *)
Definition by_score (a b : (Z * product) * Z) : Z :=
  let d := b.2 - a.2 in
  if d =? 0 then newest_first a.1 b.1 else d.

Section Text.

Context `{Unicode}.

Definition normalizeText (value : jsstring) : jsstring :=
  trim
    (toLowerCase
       (replace_unit LATIN_CAPITAL_D_STROKE 68
          (replace_unit LATIN_SMALL_D_STROKE 100
             (filter (fun c => is_combining_mark c = false) (normalizeNFD value))))).

(** The score of one product in [listProducts]. *)
Definition product_score (key : jsstring) (tokens : list jsstring) (p : Z * product) : Z :=
  let nameNorm := normalizeText (p_name p.2) in
  let descNorm := normalizeText (p_description p.2) in
  let score := 0 in
  let score := if bool_decide (nameNorm = key) then score + 100 else score in
  let score := if startsWith nameNorm key then score + 60 else score in
  let score := if includes nameNorm key then score + 40 else score in
  let score :=
    if negb (length tokens =? 0)%nat && forallb (fun t => includes nameNorm t) tokens
    then score + 30 else score in
  let score := if includes descNorm key then score + 10 else score in
  let score :=
    if negb (length tokens =? 0)%nat && forallb (fun t => includes descNorm t) tokens
    then score + 5 else score in
  score.

(** The score [listProducts] gives a product for the query [q]. *)
Definition query_score (q : jsstring) (p : Z * product) : Z :=
  product_score (normalizeText q) (query_tokens (normalizeText q)) p.

Definition listProducts (category q : jsstring) (db : firestore) : list (Z * product) :=
  let products := candidates category db in
  match q with
  | [] => js_sort newest_first products
  | _ :: _ =>
      let key := normalizeText q in
      let tokens := query_tokens key in
      fst <$>
        js_sort by_score
          (filter (fun x => 0 < x.2)
             ((fun p => (p, product_score key tokens p)) <$> products))
  end.

End Text.

(** ** The specification's wording, for comparison *)

(** [/\s+/g -> ' '] *)
Fixpoint collapse_whitespace (in_gap : bool) (s : jsstring) : jsstring :=
  match s with
  | [] => []
  | c :: s' =>
      if is_whitespace c
      then if in_gap then collapse_whitespace true s' else 32%N :: collapse_whitespace true s'
      else c :: collapse_whitespace false s'
  end.

Section SpecText.

Context `{Unicode}.

(** Normalisation as the specification words it: the steps of
    [normalizeText] followed by collapsing every internal run of white space
    to one space. *)
Definition spec_normalizeText (value : jsstring) : jsstring :=
  collapse_whitespace false
    (trim
       (toLowerCase
          (replace_unit LATIN_CAPITAL_D_STROKE 68
             (replace_unit LATIN_SMALL_D_STROKE 100
                (filter (fun c => is_combining_mark c = false) (normalizeNFD value)))))).

(** The score as the specification words it: six independent bonuses, the
    token bonuses asking only that every token be a substring. *)
Definition spec_score (q : jsstring) (p : Z * product) : Z :=
  let key := normalizeText q in
  let tokens := query_tokens key in
  let name := normalizeText (p_name p.2) in
  let desc := normalizeText (p_description p.2) in
  (if bool_decide (name = key) then 100 else 0)
  + (if startsWith name key then 60 else 0)
  + (if includes name key then 40 else 0)
  + (if forallb (fun t => includes name t) tokens then 30 else 0)
  + (if includes desc key then 10 else 0)
  + (if forallb (fun t => includes desc t) tokens then 5 else 0).

(** "Score descending, ties broken by created_at descending". *)
Definition ranked_before (q : jsstring) (a b : Z * product) : Prop :=
  spec_score q b < spec_score q a
  \/ (spec_score q a = spec_score q b /\ p_created_at b.2 <= p_created_at a.2).

End SpecText.

(** ** Sequences of storefront operations *)

Inductive operation :=
| AddToCart (userId productId quantity : Z)
| UpdateCartItem (userId productId quantity : Z)
| RemoveCartItem (userId productId : Z)
| PlaceOrder (userId : Z) (sh : shipping) (now : Z).

Definition run_operation (reads_after_writes : bool) (db : firestore) (op : operation)
    : firestore :=
  match op with
  | AddToCart u p q => (addToCart reads_after_writes u p q db).1
  | UpdateCartItem u p q => (updateCartItem u p q db).1
  | RemoveCartItem u p => removeCartItem u p db
  | PlaceOrder u sh now => (createOrder reads_after_writes u sh now db).1
  end.

Definition run_operations (reads_after_writes : bool) (ops : list operation)
    (db : firestore) : firestore :=
  foldl (run_operation reads_after_writes) db ops.

(** Later catalogue edits by the administrator. *)
Inductive admin_operation :=
| UpdateProduct (id : Z) (payload : product_payload)
| DeleteProduct (id : Z).

Definition run_admin (db : firestore) (op : admin_operation) : firestore :=
  match op with
  | UpdateProduct id payload => (updateProduct id payload db).1
  | DeleteProduct id => deleteProduct id db
  end.

(** Every product's stock is non-negative. *)
Definition stock_nonneg (db : firestore) : Prop :=
  forall id p, products db !! id = Some p -> 0 <= p_stock p.

(** Every cart row holds a positive quantity. *)
Definition cart_positive (db : firestore) : Prop :=
  forall k row, cart_items db !! k = Some row -> 1 <= c_quantity row.

(** Every cart row lives under the id built from its own fields. *)
Definition cart_keyed (db : firestore) : Prop :=
  forall k row, cart_items db !! k = Some row -> k = (c_user_id row, c_product_id row).

(** ** Vocabulary of the statements *)

(** The counter as [nextId] reads it: [Number(value || 1)], or 1 when the
    document is missing. *)
Definition counter_value (key : string) (db : firestore) : Z :=
  match counters db !! key with
  | Some value => if value =? 0 then 1 else value
  | None => 1
  end.

(** The quantity [addToCart] reads for the pair: that of the row, or 0. *)
Definition cart_quantity (userId productId : Z) (db : firestore) : Z :=
  match cart_items db !! (userId, productId) with
  | Some c => c_quantity c
  | None => 0
  end.

(** The snapshot of one cart line against the product it references. *)
Definition snapshot_item (p : product) (c : cart_row) : order_item :=
  OrderItem (c_product_id c) (p_name p) (c_quantity c) (p_price p).

(** The line's product exists and covers the line's quantity. *)
Definition line_in_stock (db : firestore) (d : (Z * Z) * cart_row) : Prop :=
  exists p, products db !! c_product_id d.2 = Some p /\ c_quantity d.2 <= p_stock p.

(** The snapshots of the lines whose product exists. *)
Definition snapshot_items (db : firestore) (docs : list ((Z * Z) * cart_row)) : list order_item :=
  omap (fun d => (fun p => snapshot_item p d.2) <$> products db !! c_product_id d.2) docs.

(** The writes the second loop of the checkout buffers for one line. *)
Definition line_writes (db : firestore) (d : (Z * Z) * cart_row) : list write :=
  match products db !! c_product_id d.2 with
  | Some p => [UpdateStock (c_product_id d.2) (p_stock p - c_quantity d.2); DeleteCartItem d.1]
  | None => []
  end.

(** What one committed write, and a list of them, does to each collection. *)
Definition products_step (m : gmap Z product) (w : write) : gmap Z product :=
  match w with
  | UpdateStock pid st => alter (with_stock st) pid m
  | _ => m
  end.

Definition cart_step (m : gmap (Z * Z) cart_row) (w : write) : gmap (Z * Z) cart_row :=
  match w with
  | SetCartItem k row => <[k := row]> m
  | DeleteCartItem k => delete k m
  | _ => m
  end.

Definition orders_step (m : gmap Z order) (w : write) : gmap Z order :=
  match w with
  | SetOrder id o => <[id := o]> m
  | _ => m
  end.

Definition counters_step (m : gmap string Z) (w : write) : gmap string Z :=
  match w with
  | SetCounter key v => <[key := v]> m
  | _ => m
  end.

Definition products_after (ws : list write) (m : gmap Z product) : gmap Z product :=
  foldl products_step m ws.

Definition cart_after (ws : list write) (m : gmap (Z * Z) cart_row) : gmap (Z * Z) cart_row :=
  foldl cart_step m ws.

Definition orders_after (ws : list write) (m : gmap Z order) : gmap Z order :=
  foldl orders_step m ws.

Definition counters_after (ws : list write) (m : gmap string Z) : gmap string Z :=
  foldl counters_step m ws.

(** The order document the checkout writes for the lines [docs]. *)
Definition placed_order (uId : Z) (sh : shipping) (now : Z) (db : firestore)
    (docs : list ((Z * Z) * cart_row)) : order :=
  Order uId (order_total (snapshot_items db docs)) (js "Pending") (shipping_name sh)
    (shipping_phone sh) (shipping_address sh) now (snapshot_items db docs).

(** The store after [nextId key]. *)
Definition counter_bumped (key : string) (db : firestore) : firestore :=
  set_counters <[key := counter_value key db + 1]> db.

(** Every product has at least one unit in stock. *)
Definition all_in_stock (db : firestore) : Prop :=
  forall id p, products db !! id = Some p -> 1 <= p_stock p.

(** The cart operations, with the quantity the cart form sends to
    [addToCart]: [Math.max(1, ...)]. *)
Definition cart_operation (op : operation) : Prop :=
  match op with
  | AddToCart _ _ quantity => 1 <= quantity
  | UpdateCartItem _ _ _ => True
  | RemoveCartItem _ _ => True
  | PlaceOrder _ _ _ => False
  end.

(** ** Sample data *)

Definition seed_iphone (t : Z) : product :=
  Product (js "iPhone 16 Pro") (js "Latest Apple flagship with advanced camera system.")
    1299 (js "https://images.unsplash.com/photo-1592750475338-74b7b21085ab?w=1000")
    15 (js "Phone") t.

Definition seed_earbuds (t : Z) : product :=
  Product (js "Wireless Earbuds Pro") (js "Noise-cancelling earbuds with long battery life.")
    149 (js "https://images.unsplash.com/photo-1590658268037-6bf12165a8df?w=1000")
    45 (js "Accessory") t.

Definition two_product_catalogue (t1 t5 : Z) : firestore :=
  Firestore (<[1 := seed_iphone t1]> (<[5 := seed_earbuds t5]> ∅)) ∅ ∅ ∅.

(** A product [A] priced 100 with the given stock, and a store holding it. *)
Definition product_A (stock : Z) : product :=
  Product (js "A") (js "A phone") 100 (js "/uploads/a.png") stock (js "Phone") 1000.

Definition store_A (stock : Z) (cart : gmap (Z * Z) cart_row) : firestore :=
  Firestore {[ 1 := product_A stock ]} cart ∅ (<["orders" := 1]> ∅).

Definition sample_shipping : shipping := Shipping (js "N") (js "0") (js "Street").

(** ** The rest of the data layer *)

(** [ensureCounterDocs]: a counter document that is missing is created with
    value 1; one that exists is left alone. *)
Definition ensure_counter (db : firestore) (key : string) : firestore :=
  match counters db !! key with
  | Some _ => db
  | None => set_counters <[key := 1]> db
  end.

Definition ensureCounterDocs (db : firestore) : firestore :=
  foldl ensure_counter db ["users"; "products"; "orders"].

Definition getProductById (id : Z) (db : firestore) : option (Z * product) :=
  docToObject id (products db !! id).

(** The payload of [createProduct] as the admin form builds it. *)
Record product_fields := ProductFields {
  f_name : jsstring;
  f_description : jsstring;
  f_price : Z;
  f_image_url : jsstring;
  f_stock : Z;
  f_category : jsstring
}.

(** [{ created_at: now(), ...payload }] *)
Definition new_product (now : Z) (payload : product_fields) : product :=
  Product (f_name payload) (f_description payload) (f_price payload)
    (f_image_url payload) (f_stock payload) (f_category payload) now.

Definition createProduct (reads_after_writes : bool) (payload : product_fields) (now : Z)
    (db : firestore) : firestore * outcome (Z * product) :=
  match nextId reads_after_writes "products" db with
  | (db1, Throw e) => (db1, Throw e)
  | (db1, Return id) =>
      let product := new_product now payload in
      (set_products <[id := product]> db1, Return (id, product))
  end.

(** [orderBy('created_at', 'desc').limit(limit)]: the store's documents by
    decreasing [created_at], cut after [limit]. *)
Definition getFeaturedProducts (limit : nat) (db : firestore) : list (Z * product) :=
  omap (fun d => docToObject d.1 (Some d.2))
    (take limit (js_sort newest_first (map_to_list (products db)))).


(** A line of the cart page: the row joined with the live product. *)
Record cart_line := CartLine {
  l_product_id : Z;
  l_quantity : Z;
  l_name : jsstring;
  l_price : Z;
  l_image_url : jsstring;
  l_stock : Z
}.

Definition getCartItems (userId : Z) (db : firestore) : list cart_line :=
  let cartSnap := cart_of userId db in
  match cartSnap with
  | [] => []
  | _ :: _ =>
      omap (fun d =>
              let c := d.2 in
              match products db !! c_product_id c with
              | None => None
              | Some p =>
                  Some (CartLine (c_product_id c) (c_quantity c) (p_name p) (p_price p)
                          (p_image_url p) (p_stock p))
              end) cartSnap
  end.


(** [n] calls of [nextId key] in a row, with the ids they return. *)
Fixpoint issue_ids (reads_after_writes : bool) (key : string) (n : nat) (db : firestore)
    : firestore * list Z :=
  match n with
  | O => (db, [])
  | S n' =>
      match nextId reads_after_writes key db with
      | (db1, Throw _) => (db1, [])
      | (db1, Return id) =>
          let rest := issue_ids reads_after_writes key n' db1 in
          (rest.1, id :: rest.2)
      end
  end.

(** ** Invariants of reachable stores *)

(** Every id in a collection is below the next id its counter issues. *)
Definition product_ids_issued (db : firestore) : Prop :=
  1 <= counter_value "products" db
  /\ forall id p, products db !! id = Some p -> id < counter_value "products" db.

Definition order_ids_issued (db : firestore) : Prop :=
  1 <= counter_value "orders" db
  /\ forall id o, orders db !! id = Some o -> id < counter_value "orders" db.


(** No cart row asks for more than its product has in stock. *)
Definition cart_within_stock (db : firestore) : Prop :=
  forall k row p, cart_items db !! k = Some row ->
                  products db !! c_product_id row = Some p ->
                  c_quantity row <= p_stock p.

(** Every operation of the data layer that writes. *)
Inductive store_operation :=
| Cart (op : operation)
| Admin (op : admin_operation)
| CreateProduct (payload : product_fields) (now : Z).

Definition run_store (reads_after_writes : bool) (db : firestore) (op : store_operation)
    : firestore :=
  match op with
  | Cart op => run_operation reads_after_writes db op
  | Admin op => run_admin db op
  | CreateProduct payload now => (createProduct reads_after_writes payload now db).1
  end.


(** The operations that edit a cart without checking out. *)
Definition cart_edit (op : operation) : Prop :=
  match op with
  | PlaceOrder _ _ _ => False
  | _ => True
  end.

(** ** Accounts (src/db.js and the account routes of src/app.js) *)

Record user := User {
  u_name : jsstring;
  u_email : jsstring;
  u_password_hash : jsstring;
  u_is_admin : Z;
  u_created_at : Z
}.

(** The [users] collection, keyed by the numeric id like products and
    orders, beside the collections of the storefront. *)
Record database := Database {
  store : firestore;
  users : gmap Z user
}.

(** [db.collection('users').where('email', '==', email).limit(1).get()] *)
Definition users_by_email (email : jsstring) (db : database) : list (Z * user) :=
  take 1 (filter (fun d => u_email d.2 = email) (map_to_list (users db))).

Definition findUserByEmail (email : jsstring) (db : database) : option (Z * user) :=
  match users_by_email email db with
  | [] => None
  | d :: _ => docToObject d.1 (Some d.2)
  end.

(** [passwordHash] is what [bcrypt.hashSync] gave the caller. *)
Definition createUser (reads_after_writes : bool) (name email passwordHash : jsstring)
    (now : Z) (db : database) : database * outcome (Z * user) :=
  match nextId reads_after_writes "users" (store db) with
  | (st, Throw e) => (Database st (users db), Throw e)
  | (st, Return id) =>
      let user := User name email passwordHash 0 now in
      (Database st (<[id := user]> (users db)), Return (id, user))
  end.

Definition ADMIN_EMAIL : jsstring := js "admin@phonestore.com".

Definition seedProducts : list product_fields :=
  [ ProductFields (js "iPhone 16 Pro")
      (js "Latest Apple flagship with advanced camera system.") 1299
      (js "https://images.unsplash.com/photo-1592750475338-74b7b21085ab?w=1000") 15
      (js "Phone");
    ProductFields (js "Samsung Galaxy S26")
      (js "Premium Android phone with dynamic AMOLED display.") 1199
      (js "https://images.unsplash.com/photo-1610945415295-d9bbf067e59c?w=1000") 20
      (js "Phone");
    ProductFields (js "Google Pixel 11")
      (js "Pure Android experience with top AI camera features.") 999
      (js "https://images.unsplash.com/photo-1511707171634-5f897ff02aa9?w=1000") 12
      (js "Phone");
    ProductFields (js "65W Fast Charger")
      (js "Universal USB-C fast charger for phones and tablets.") 39
      (js "https://images.unsplash.com/photo-1583863788434-e58a36330cf0?w=1000") 100
      (js "Accessory");
    ProductFields (js "Wireless Earbuds Pro")
      (js "Noise-cancelling earbuds with long battery life.") 149
      (js "https://images.unsplash.com/photo-1590658268037-6bf12165a8df?w=1000") 45
      (js "Accessory");
    ProductFields (js "MagSafe Power Bank")
      (js "Portable magnetic power bank for modern smartphones.") 79
      (js "https://images.unsplash.com/photo-1609592424708-0d3cb52b62b4?w=1000") 30
      (js "Accessory") ].

(** [for (const p of seedProducts) { const id = await nextId('products'); ... }];
    [clock i] is what [now()] reads for the product at index [i]. *)
Fixpoint seed_catalogue (reads_after_writes : bool) (clock : nat -> Z) (i : nat)
    (ps : list product_fields) (db : firestore) : firestore * outcome unit :=
  match ps with
  | [] => (db, Return tt)
  | p :: ps' =>
      match nextId reads_after_writes "products" db with
      | (db1, Throw e) => (db1, Throw e)
      | (db1, Return id) =>
          seed_catalogue reads_after_writes clock (S i) ps'
            (set_products <[id := new_product (clock i) p]> db1)
      end
  end.

(** The first half of [initDb]: the counters and the administrator. *)
Definition ensure_admin (reads_after_writes : bool) (adminHash : jsstring) (now : Z)
    (db : database) : database * outcome unit :=
  let st := ensureCounterDocs (store db) in
  match users_by_email ADMIN_EMAIL db with
  | [] =>
      match nextId reads_after_writes "users" st with
      | (st1, Throw e) => (Database st1 (users db), Throw e)
      | (st1, Return id) =>
          (Database st1
             (<[id := User (js "Store Admin") ADMIN_EMAIL adminHash 1 now]> (users db)),
           Return tt)
      end
  | _ :: _ => (Database st (users db), Return tt)
  end.

Definition initDb (reads_after_writes : bool) (adminHash : jsstring) (now : Z)
    (clock : nat -> Z) (db : database) : database * outcome unit :=
  match ensure_admin reads_after_writes adminHash now db with
  | (db1, Throw e) => (db1, Throw e)
  | (db1, Return _) =>
      match take 1 (map_to_list (products (store db1))) with
      | _ :: _ => (db1, Return tt)
      | [] =>
          let seeded := seed_catalogue reads_after_writes clock 0 seedProducts (store db1) in
          (Database seeded.1 (users db1), seeded.2)
      end
  end.

(** What [POST /register] answers: the two flash errors, or the new user. *)
Inductive registration :=
| Invalid_input
| Email_in_use
| Registered (id : Z) (u : user).

(** The profile an OAuth provider hands over: the display name, empty when
    there is none, and the values of its e-mail entries. *)
Record oauth_profile := OAuthProfile {
  displayName : jsstring;
  emails : list jsstring
}.

(** [email.split('@')[0]] *)
Fixpoint before_at (s : jsstring) : jsstring :=
  match s with
  | [] => []
  | c :: s' => if (c =? 64)%N then [] else c :: before_at s'
  end.

Section Accounts.

Context `{Unicode}.

(** [POST /register]; [hash] is [bcrypt.hashSync(password, 10)]. *)
Definition register (reads_after_writes : bool) (name email password hash : jsstring)
    (now : Z) (db : database) : database * outcome registration :=
  let name := trim name in
  let email := toLowerCase (trim email) in
  if bool_decide (name = []) || bool_decide (email = []) || (length password <? 6)%nat
  then (db, Return Invalid_input)
  else
    match findUserByEmail email db with
    | Some _ => (db, Return Email_in_use)
    | None =>
        match createUser reads_after_writes name email hash now db with
        | (db1, Throw e) => (db1, Throw e)
        | (db1, Return (id, u)) => (db1, Return (Registered id u))
        end
    end.

Definition getProfileEmail (profile : oauth_profile) : jsstring :=
  let firstEmail :=
    match emails profile with
    | [] => []
    | value :: _ => value
    end in
  toLowerCase (trim firstEmail).

(** [loginWithOAuthProfile]: the user the session is opened for, or nothing
    when the provider gave no e-mail address. *)
Definition loginWithOAuthProfile (reads_after_writes : bool) (profile : oauth_profile)
    (oauthPasswordHash : jsstring) (now : Z) (db : database)
    : database * outcome (option (Z * user)) :=
  let email := getProfileEmail profile in
  match email with
  | [] => (db, Return None)
  | _ :: _ =>
      let name :=
        trim match displayName profile with
             | [] => match before_at email with
                     | [] => js "User"
                     | local => local
                     end
             | given => given
             end in
      match findUserByEmail email db with
      | Some user => (db, Return (Some user))
      | None =>
          match createUser reads_after_writes name email oauthPasswordHash now db with
          | (db1, Throw e) => (db1, Throw e)
          | (db1, Return user) => (db1, Return (Some user))
          end
      end
  end.

(** The operations that write to the [users] collection. *)
Inductive account_operation :=
| Register (name email password hash : jsstring) (now : Z)
| OAuthLogin (profile : oauth_profile) (hash : jsstring) (now : Z)
| InitDb (adminHash : jsstring) (now : Z) (clock : nat -> Z).

Definition run_account (reads_after_writes : bool) (db : database) (op : account_operation)
    : database :=
  match op with
  | Register name email password hash now =>
      (register reads_after_writes name email password hash now db).1
  | OAuthLogin profile hash now =>
      (loginWithOAuthProfile reads_after_writes profile hash now db).1
  | InitDb adminHash now clock => (initDb reads_after_writes adminHash now clock db).1
  end.

End Accounts.

(** The operations through which visitors get an account. *)
Definition sign_up (op : account_operation) : Prop :=
  match op with
  | InitDb _ _ _ => False
  | _ => True
  end.

(** No two users share an e-mail address. *)
Definition emails_unique (db : database) : Prop :=
  forall i j u v, users db !! i = Some u -> users db !! j = Some v ->
                  u_email u = u_email v -> i = j.

Definition user_ids_issued (db : database) : Prop :=
  1 <= counter_value "users" (store db)
  /\ forall id u, users db !! id = Some u -> id < counter_value "users" (store db).

(** The three counter documents exist. *)
Definition counters_present (db : firestore) : Prop :=
  forall key, key ∈ ["users"; "products"; "orders"] -> is_Some (counters db !! key).

(** ** The description of the product form (src/app.js) *)

(** Whether the units of [s] from its start on satisfy the units of the
    pattern one by one. *)
Fixpoint matches_at (pattern : list (N -> bool)) (s : jsstring) : bool :=
  match pattern with
  | [] => true
  | f :: pattern' =>
      match s with
      | [] => false
      | c :: s' => f c && matches_at pattern' s'
      end
  end.

Fixpoint includes_pattern (pattern : list (N -> bool)) (s : jsstring) : bool :=
  matches_at pattern s
  || match s with
     | [] => false
     | _ :: s' => includes_pattern pattern s'
     end.

(** [/&nbsp;/i]: the letters in either case. *)
Definition nbsp_entity : list (N -> bool) :=
  [ fun c => (c =? 38)%N;
    fun c => (ascii_lower c =? 110)%N;
    fun c => (ascii_lower c =? 98)%N;
    fun c => (ascii_lower c =? 115)%N;
    fun c => (ascii_lower c =? 112)%N;
    fun c => (c =? 59)%N ].

(** [.replace(/<[^>]*>/g, ' ')]: a [<] opens a match when a [>] follows it
    somewhere, and the match runs to the first [>]; [in_tag] says the scan is
    inside a match. *)
Fixpoint strip_tags (in_tag : bool) (s : jsstring) : jsstring :=
  match s with
  | [] => []
  | c :: s' =>
      if in_tag
      then if (c =? 62)%N then 32%N :: strip_tags false s' else strip_tags true s'
      else if (c =? 60)%N && bool_decide (62%N ∈ s')
           then strip_tags true s'
           else c :: strip_tags false s'
  end.

(** [.replace(/&nbsp;/gi, ' ')]; [skip] counts the units of a match that
    are still to be passed over. *)
Fixpoint replace_nbsp (skip : nat) (s : jsstring) : jsstring :=
  match s with
  | [] => []
  | c :: s' =>
      match skip with
      | S skip' => replace_nbsp skip' s'
      | O =>
          if matches_at nbsp_entity s
          then 32%N :: replace_nbsp 5 s'
          else c :: replace_nbsp 0 s'
      end
  end.

(** [normalizeRichDescription]: the pair of [html] and [plain]. *)
Definition normalizeRichDescription (html : jsstring) : jsstring * jsstring :=
  let safeHtml := trim html in
  let plain :=
    trim (collapse_whitespace false (replace_nbsp 0 (strip_tags false safeHtml))) in
  (safeHtml, plain).

(** A complete tag: a [<] with a [>] somewhere after it. *)
Definition has_tag (s : jsstring) : Prop :=
  exists before after, s = before ++ 60%N :: after /\ 62%N ∈ after.

Fixpoint has_tagb (s : jsstring) : bool :=
  match s with
  | [] => false
  | c :: s' => ((c =? 60)%N && bool_decide (62%N ∈ s')) || has_tagb s'
  end.

(** The units [<] and [>] of a string, in order. *)
Definition marks (s : jsstring) : jsstring :=
  filter (fun c => c = 60%N \/ c = 62%N) s.

(** Every white space unit is a U+0020 that follows no other white space. *)
Fixpoint single_spaced (after_space : bool) (s : jsstring) : bool :=
  match s with
  | [] => true
  | c :: s' =>
      if is_whitespace c
      then (c =? 32)%N && negb after_space && single_spaced true s'
      else single_spaced false s'
  end.

(** [<body>], and a document of tags with white space between them. *)
Definition tag (body : jsstring) : jsstring := 60%N :: body ++ [62%N].

Definition markup (segments : list (jsstring * jsstring)) (last : jsstring) : jsstring :=
  concat ((fun seg => tag seg.1 ++ seg.2) <$> segments) ++ tag last.

(** ** Sample accounts *)

Definition no_accounts : database := Database (Firestore ∅ ∅ ∅ ∅) ∅.

Definition user_ann : user :=
  User (js "Ann") (js "ann@x.io") (js "$2a$10$ann") 0 1000.

Definition user_root : user :=
  User (js "Root") (js "root@x.io") (js "$2a$10$root") 1 500.

Definition two_accounts : database :=
  Database (Firestore ∅ ∅ ∅ (<["users" := 3]> ∅)) (<[1 := user_root]> (<[2 := user_ann]> ∅)).

Definition sample_clock (i : nat) : Z := 2000 + Z.of_nat i.

Definition sample_profile : oauth_profile := OAuthProfile [] [js " Bob@X.io "].

(** A first start of the server, two registrations with one address, and
    two logins of one OAuth profile. *)
Definition sample_account_operations : list account_operation :=
  [ InitDb (js "$2a$10$admin") 1000 sample_clock;
    Register (js " Ann ") (js "Ann@X.io") (js "secret1") (js "$2a$10$ann") 3000;
    Register (js "Ann B") (js " ann@x.io ") (js "secret2") (js "$2a$10$annb") 3001;
    OAuthLogin sample_profile (js "$2a$10$bob") 3002;
    OAuthLogin sample_profile (js "$2a$10$bob2") 3003 ].

(** * Properties *)

(** ** Transactions: reads before writes, commit *)

Lemma tx_get_first (raw : bool) {A} (f : firestore -> A) (db : firestore) :
  tx_get raw f db [] = Return (f db, []).
Proof. reflexivity. Qed.

Lemma tx_get_after_write {A} (f : firestore -> A) (db : firestore) (w : write) (ws : list write) :
  tx_get firestore_sdk f db (w :: ws) = Throw READ_AFTER_WRITE_ERROR_MSG.
Proof. reflexivity. Qed.

Lemma runTransaction_Throw (A : Type) (body : tx A) (db db' : firestore) (e : jsstring) :
  runTransaction body db = (db', Throw e) -> db' = db.
Proof.
  unfold runTransaction.
  destruct (body db []) as [[a ws]|e0]; [|congruence].
  destruct (commit ws db); congruence.
Qed.

(** ** [nextId] *)

Lemma nextId_eq (raw : bool) (key : string) (db : firestore) :
  nextId raw key db =
    (counter_bumped key db, Return (counter_value key db)).
Proof. reflexivity. Qed.

(** ** [addToCart] *)

Lemma addToCart_eq (raw : bool) (userId productId quantity : Z) (db : firestore) :
  addToCart raw userId productId quantity db =
    match products db !! productId with
    | None => (db, Return (Failed (js "Product not found.")))
    | Some product =>
        if p_stock product <? quantity
        then (db, Return (Failed (js "Not enough stock available.")))
        else
          (set_cart_items
             <[(userId, productId) :=
                 CartRow userId productId
                   (Z.min (cart_quantity userId productId db + quantity) (p_stock product))]> db,
           Return (Ok tt))
    end.
Proof.
  unfold addToCart, runTransaction, tx_bind, cart_quantity. rewrite tx_get_first.
  destruct (products db !! productId) as [product|]; [|by destruct db].
  destruct (p_stock product <? quantity); [by destruct db|].
  rewrite tx_get_first. reflexivity.
Qed.

(** ** The checkout transaction *)

(** The validation loop runs before any write, so it reads whatever the
    store's policy: on lines that are all in stock it returns their
    snapshots and buffers nothing. *)
Lemma collect_items_in_stock (raw : bool) (db : firestore) (docs : list ((Z * Z) * cart_row))
    (items : list order_item) :
  Forall (line_in_stock db) docs ->
  collect_items raw docs items db [] = Return (items ++ snapshot_items db docs, []).
Proof.
  revert items. induction docs as [|d docs IH]; intros items Hall.
  - simpl. by rewrite app_nil_r.
  - apply Forall_cons in Hall as [(p & Hp & Hq) Hall].
    cbn [collect_items]. unfold tx_bind at 1. rewrite tx_get_first, Hp.
    replace (c_quantity d.2 >? p_stock p) with false
      by (symmetry; rewrite Z.gtb_ltb; apply Z.ltb_ge; lia).
    rewrite IH by done. unfold snapshot_items. cbn [omap list_omap].
    rewrite Hp. cbn. by rewrite <- app_assoc.
Qed.

(** When it returns, every line was in stock. *)
Lemma collect_items_Return (raw : bool) (db : firestore) (docs : list ((Z * Z) * cart_row))
    (items its : list order_item) (ws : list write) :
  collect_items raw docs items db [] = Return (its, ws) ->
  Forall (line_in_stock db) docs.
Proof.
  revert items. induction docs as [|d docs IH]; intros items Hrun; [constructor|].
  cbn [collect_items] in Hrun. unfold tx_bind at 1 in Hrun. rewrite tx_get_first in Hrun.
  destruct (products db !! c_product_id d.2) as [p|] eqn:Hp; [|discriminate].
  destruct (c_quantity d.2 >? p_stock p) eqn:Hq; [discriminate|].
  rewrite Z.gtb_ltb in Hq. apply Z.ltb_ge in Hq.
  constructor; [by exists p|]. by eapply IH.
Qed.

(** When it throws, the message is that of the first line that fails. *)
Lemma collect_items_Throw (raw : bool) (db : firestore) (docs : list ((Z * Z) * cart_row))
    (items : list order_item) (e : jsstring) :
  collect_items raw docs items db [] = Throw e ->
  exists d, d ∈ docs /\
    match products db !! c_product_id d.2 with
    | None => e = js "Product not found in cart."
    | Some p =>
        p_stock p < c_quantity d.2 /\ e = js "Insufficient stock for " ++ p_name p ++ js "."
    end.
Proof.
  revert items. induction docs as [|d docs IH]; intros items Hrun; [discriminate|].
  cbn [collect_items] in Hrun. unfold tx_bind at 1 in Hrun. rewrite tx_get_first in Hrun.
  destruct (products db !! c_product_id d.2) as [p|] eqn:Hp.
  - destruct (c_quantity d.2 >? p_stock p) eqn:Hq.
    + exists d. split; [left|]. rewrite Hp. rewrite Z.gtb_ltb in Hq. apply Z.ltb_lt in Hq.
      split; [done|]. unfold tx_throw in Hrun. by injection Hrun as <-.
    + destruct (IH _ Hrun) as (d' & Hin & Hd'). exists d'. split; [by right|done].
  - exists d. split; [left|]. rewrite Hp. unfold tx_throw in Hrun. by injection Hrun as <-.
Qed.

(** A line that is not in stock makes the loop throw. *)
Lemma collect_items_not_in_stock (raw : bool) (db : firestore)
    (docs : list ((Z * Z) * cart_row)) (items : list order_item) :
  ~ Forall (line_in_stock db) docs ->
  exists e, collect_items raw docs items db [] = Throw e.
Proof.
  intros Hbad.
  destruct (collect_items raw docs items db []) as [[its ws]|e] eqn:Hrun; [|by exists e].
  destruct Hbad. by eapply collect_items_Return.
Qed.

(** ** Commit, collection by collection *)

Lemma insert_with_stock (m : gmap Z product) (pid st : Z) (p : product) :
  m !! pid = Some p -> <[pid := with_stock st p]> m = alter (with_stock st) pid m.
Proof.
  intros Hp. apply map_eq. intros i. destruct (decide (pid = i)) as [->|Hne].
  - by rewrite lookup_insert_eq, lookup_alter_eq, Hp.
  - by rewrite lookup_insert_ne, lookup_alter_ne.
Qed.

Lemma commit_Some (ws : list write) (db db' : firestore) :
  commit ws db = Some db' ->
  db' = Firestore (products_after ws (products db)) (cart_after ws (cart_items db))
          (orders_after ws (orders db)) (counters_after ws (counters db)).
Proof.
  revert db. induction ws as [|w ws IH]; intros db Hc; simpl in Hc.
  - injection Hc as <-. by destruct db.
  - destruct (apply_write db w) as [db1|] eqn:Hw; [|discriminate].
    rewrite (IH _ Hc). destruct w; simpl in Hw.
    + by injection Hw as <-.
    + by injection Hw as <-.
    + by injection Hw as <-.
    + destruct (products db !! pid) as [p|] eqn:Hp; [|discriminate].
      injection Hw as <-. unfold products_after. cbn.
      by rewrite (insert_with_stock _ _ _ _ Hp).
    + by injection Hw as <-.
Qed.

Lemma products_after_dom (ws : list write) (m : gmap Z product) (id : Z) :
  is_Some (products_after ws m !! id) <-> is_Some (m !! id).
Proof.
  unfold products_after. revert m. induction ws as [|w ws IH]; intros m; [done|].
  cbn [foldl]. rewrite IH. destruct w; try done. cbn.
  destruct (decide (pid = id)) as [->|Hne].
  - rewrite lookup_alter_eq. by rewrite fmap_is_Some.
  - by rewrite lookup_alter_ne.
Qed.


(** Stocks written at commit are the only way a stock changes. *)
Lemma products_after_stock (ws : list write) (m : gmap Z product) (id : Z) (p' : product) :
  products_after ws m !! id = Some p' ->
  (exists p, m !! id = Some p /\ p_stock p' = p_stock p)
  \/ (exists st, UpdateStock id st ∈ ws /\ p_stock p' = st).
Proof.
  unfold products_after. revert m.
  induction ws as [|w ws IH]; intros m Hp'; [left; by exists p'|].
  cbn [foldl] in Hp'. apply IH in Hp' as [(p & Hp & Hst)|(st & Hin & Hst)].
  - destruct w; try (left; by exists p). cbn in Hp.
    destruct (decide (pid = id)) as [->|Hne].
    + rewrite lookup_alter_eq in Hp. destruct (m !! id) as [p0|]; [|discriminate].
      injection Hp as <-. right. exists stock. split; [left|done].
    + rewrite lookup_alter_ne in Hp by done. left. by exists p.
  - right. exists st. split; [by right|done].
Qed.

(** ** The second loop and the whole transaction *)

(** Under the SDK's rule the second loop cannot read: the order document is
    already in the write batch. *)
Lemma decrement_and_clear_sdk (db : firestore) (d : (Z * Z) * cart_row)
    (docs : list ((Z * Z) * cart_row)) (w : write) (ws : list write) :
  decrement_and_clear firestore_sdk (d :: docs) db (w :: ws) = Throw READ_AFTER_WRITE_ERROR_MSG.
Proof. reflexivity. Qed.

(** Whatever the policy, when the loop returns it has buffered exactly the
    writes of its lines. *)
Lemma decrement_and_clear_Return (raw : bool) (db : firestore)
    (docs : list ((Z * Z) * cart_row)) (ws ws' : list write) (u : unit) :
  decrement_and_clear raw docs db ws = Return (u, ws') ->
  ws' = ws ++ flat_map (line_writes db) docs.
Proof.
  revert ws. induction docs as [|d docs IH]; intros ws Hrun.
  - cbn in Hrun. injection Hrun as _ <-. by rewrite app_nil_r.
  - cbn [decrement_and_clear] in Hrun. unfold tx_bind at 1 in Hrun.
    assert (tx_get raw (fun db0 => products db0 !! c_product_id d.2) db ws
            = Return (products db !! c_product_id d.2, ws)
            \/ exists e, tx_get raw (fun db0 => products db0 !! c_product_id d.2) db ws = Throw e)
      as [Hget|[e Hget]]
      by (unfold tx_get; destruct ws, raw; eauto).
    2: { rewrite Hget in Hrun. discriminate. }
    rewrite Hget in Hrun. cbn [flat_map]. unfold line_writes at 1.
    destruct (products db !! c_product_id d.2) as [p|]; [|discriminate].
    unfold tx_bind, tx_write in Hrun. apply IH in Hrun. rewrite Hrun.
    by rewrite <- !app_assoc.
Qed.


Lemma order_transaction_Return (raw : bool) (uId orderId : Z) (sh : shipping) (now : Z)
    (docs : list ((Z * Z) * cart_row)) (db : firestore) (u : unit) (ws : list write) :
  order_transaction raw uId orderId sh now docs db [] = Return (u, ws) ->
  Forall (line_in_stock db) docs
  /\ ws = SetOrder orderId (placed_order uId sh now db docs) :: flat_map (line_writes db) docs.
Proof.
  unfold order_transaction. unfold tx_bind at 1.
  destruct (collect_items raw docs [] db []) as [[its ws0]|e] eqn:Hc; [|discriminate].
  pose proof (collect_items_Return _ _ _ _ _ _ Hc) as Hall.
  rewrite (collect_items_in_stock raw db docs [] Hall) in Hc.
  injection Hc as <- <-. unfold tx_bind, tx_write. intros Hrun.
  apply decrement_and_clear_Return in Hrun. by split.
Qed.

Lemma order_transaction_sdk (uId orderId : Z) (sh : shipping) (now : Z)
    (docs : list ((Z * Z) * cart_row)) (db : firestore) :
  docs <> [] -> Forall (line_in_stock db) docs ->
  order_transaction firestore_sdk uId orderId sh now docs db [] = Throw READ_AFTER_WRITE_ERROR_MSG.
Proof.
  intros Hne Hall. unfold order_transaction. unfold tx_bind at 1.
  rewrite (collect_items_in_stock _ db docs [] Hall).
  destruct docs as [|d docs]; [done|]. reflexivity.
Qed.


Lemma order_transaction_Throw (raw : bool) (uId orderId : Z) (sh : shipping) (now : Z)
    (docs : list ((Z * Z) * cart_row)) (db : firestore) (e : jsstring) :
  order_transaction raw uId orderId sh now docs db [] = Throw e ->
  ~ Forall (line_in_stock db) docs ->
  exists d, d ∈ docs /\
    match products db !! c_product_id d.2 with
    | None => e = js "Product not found in cart."
    | Some p =>
        p_stock p < c_quantity d.2 /\ e = js "Insufficient stock for " ++ p_name p ++ js "."
    end.
Proof.
  intros Hrun Hbad. unfold order_transaction in Hrun. unfold tx_bind at 1 in Hrun.
  destruct (collect_items_not_in_stock raw db docs [] Hbad) as [e' Hc].
  rewrite Hc in Hrun. injection Hrun as <-. by eapply collect_items_Throw.
Qed.

(** ** [createOrder], unfolded *)

Lemma createOrder_empty (raw : bool) (userId : Z) (sh : shipping) (now : Z) (db : firestore) :
  cart_of userId db = [] ->
  createOrder raw userId sh now db = (db, Return (Failed (js "Your cart is empty."))).
Proof. intros Hc. unfold createOrder. by rewrite Hc. Qed.

Lemma createOrder_nonempty (raw : bool) (userId : Z) (sh : shipping) (now : Z) (db : firestore) :
  cart_of userId db <> [] ->
  createOrder raw userId sh now db =
    let orderId := counter_value "orders" db in
    match runTransaction (order_transaction raw userId orderId sh now (cart_of userId db))
            (counter_bumped "orders" db) with
    | (db2, Throw message) => (db2, Return (Failed (order_error message)))
    | (db2, Return _) => (db2, Return (Ok (docToObject orderId (orders db2 !! orderId))))
    end.
Proof.
  intros Hc. unfold createOrder. rewrite nextId_eq.
  by destruct (cart_of userId db).
Qed.

(** Every run of [createOrder] is of one of two kinds: it reports a failure
    and has written at most the order counter, or the transaction's writes --
    the order document and the writes of every line -- were committed in one
    piece on top of the bumped counter. *)
Lemma createOrder_cases (raw : bool) (userId : Z) (sh : shipping) (now : Z) (db : firestore) :
  let out := createOrder raw userId sh now db in
  let docs := cart_of userId db in
  let orderId := counter_value "orders" db in
  ((out.1 = db \/ out.1 = counter_bumped "orders" db) /\ exists e, out.2 = Return (Failed e))
  \/ (docs <> [] /\ Forall (line_in_stock db) docs
      /\ commit (SetOrder orderId (placed_order userId sh now db docs)
                   :: flat_map (line_writes db) docs) (counter_bumped "orders" db)
         = Some out.1
      /\ out.2 = Return (Ok (docToObject orderId (orders out.1 !! orderId)))).
Proof.
  intros out docs orderId. subst out.
  destruct (decide (docs = [])) as [Hnil|Hne].
  { left. rewrite (createOrder_empty _ _ _ _ _ Hnil). split; [by left|by eexists]. }
  rewrite (createOrder_nonempty _ _ _ _ _ Hne). cbn zeta. fold docs orderId.
  unfold runTransaction.
  destruct (order_transaction raw userId orderId sh now docs (counter_bumped "orders" db) [])
    as [[u ws]|e] eqn:Hrun.
  - apply order_transaction_Return in Hrun as [Hall ->].
    destruct (commit _ (counter_bumped "orders" db)) as [db2|] eqn:Hcommit.
    + right. by repeat split.
    + left. split; [by right|by eexists].
  - left. split; [by right|by eexists].
Qed.

(** Stock written by a line's writes is what was read minus the line. *)
Lemma line_writes_stock (db : firestore) (docs : list ((Z * Z) * cart_row)) (id st : Z) :
  UpdateStock id st ∈ flat_map (line_writes db) docs ->
  exists d p, d ∈ docs /\ c_product_id d.2 = id /\ products db !! id = Some p
              /\ st = p_stock p - c_quantity d.2.
Proof.
  intros Hin. apply list_elem_of_In, in_flat_map in Hin as (d & Hd & Hin).
  apply list_elem_of_In in Hd, Hin. unfold line_writes in Hin.
  destruct (products db !! c_product_id d.2) as [p|] eqn:Hp; [|by apply elem_of_nil in Hin].
  apply elem_of_cons in Hin as [Heq|Hin].
  - injection Heq as -> ->. by exists d, p.
  - apply elem_of_cons in Hin as [Heq|Hin]; [discriminate|by apply elem_of_nil in Hin].
Qed.

(** What a checkout can do to a stock: nothing, or take a line's quantity
    off the stock it read, having checked the quantity against that stock. *)
Lemma createOrder_stock_change (raw : bool) (userId : Z) (sh : shipping) (now : Z)
    (db : firestore) (id : Z) (p' : product) :
  products (createOrder raw userId sh now db).1 !! id = Some p' ->
  exists p, products db !! id = Some p
    /\ (p_stock p' = p_stock p
        \/ exists d, d ∈ cart_of userId db /\ c_product_id d.2 = id
                     /\ c_quantity d.2 <= p_stock p
                     /\ p_stock p' = p_stock p - c_quantity d.2).
Proof.
  destruct (createOrder_cases raw userId sh now db) as [[[-> | ->] _]|(_ & Hall & Hcommit & _)].
  - intros Hp'. exists p'. by split; [|left].
  - intros Hp'. exists p'. by split; [|left].
  - apply commit_Some in Hcommit. rewrite Hcommit. cbn [products]. intros Hp'.
    assert (is_Some (products db !! id)) as [p Hp].
    { apply (products_after_dom
               (SetOrder (counter_value "orders" db)
                  (placed_order userId sh now db (cart_of userId db))
                :: flat_map (line_writes db) (cart_of userId db)) (products db) id).
      by eexists. }
    exists p. split; [done|].
    apply products_after_stock in Hp' as [(p0 & Hp0 & ->)|(st & Hin & ->)].
    + left. cbn in Hp0. congruence.
    + right. apply elem_of_cons in Hin as [Heq|Hin]; [discriminate|].
      apply line_writes_stock in Hin as (d & p0 & Hd & Hid & Hp0 & ->).
      assert (p0 = p) as -> by congruence.
      rewrite Forall_forall in Hall. destruct (Hall d Hd) as (p1 & Hp1 & Hq).
      rewrite Hid in Hp1. assert (p1 = p) as -> by congruence.
      by exists d.
Qed.

Lemma createOrder_stock_nonneg (raw : bool) (userId : Z) (sh : shipping) (now : Z)
    (db : firestore) :
  stock_nonneg db -> stock_nonneg (createOrder raw userId sh now db).1.
Proof.
  intros Hdb id p' Hp'.
  apply createOrder_stock_change in Hp' as (p & Hp & [-> | (d & _ & _ & Hq & ->)]).
  - by eapply Hdb.
  - lia.
Qed.

(** ** Cart operations never touch the catalogue *)

Lemma addToCart_products (raw : bool) (userId productId quantity : Z) (db : firestore) :
  products (addToCart raw userId productId quantity db).1 = products db.
Proof.
  rewrite addToCart_eq. destruct (products db !! productId) as [p|]; [|done].
  by destruct (p_stock p <? quantity).
Qed.

Lemma updateCartItem_products (userId productId quantity : Z) (db : firestore) :
  products (updateCartItem userId productId quantity db).1 = products db.
Proof.
  unfold updateCartItem. destruct (quantity <=? 0); [done|].
  by destruct (products db !! productId).
Qed.

Lemma run_operation_stock_nonneg (raw : bool) (db : firestore) (op : operation) :
  stock_nonneg db -> stock_nonneg (run_operation raw db op).
Proof.
  intros Hdb. destruct op as [u p q|u p q|u p|u sh now]; cbn [run_operation].
  - unfold stock_nonneg. by rewrite addToCart_products.
  - unfold stock_nonneg. by rewrite updateCartItem_products.
  - done.
  - by apply createOrder_stock_nonneg.
Qed.

(** ** The claims about cart and checkout *)

(** C1 (as the program behaves on the Firestore SDK): for a user whose cart
    is non-empty and whose every line is within the current stock,
    [createOrder] does not place the order.  The second loop calls [tx.get]
    after [tx.set(orderRef, ...)], the SDK rejects a read that follows a
    write, the transaction is rolled back, and the function returns the
    failure object carrying the SDK's message, having written nothing but
    the order counter. *)
Theorem createOrder_sdk_read_after_write (userId : Z) (sh : shipping) (now : Z)
    (db : firestore) :
  cart_of userId db <> [] ->
  Forall (line_in_stock db) (cart_of userId db) ->
  createOrder firestore_sdk userId sh now db =
    (counter_bumped "orders" db, Return (Failed READ_AFTER_WRITE_ERROR_MSG)).
Proof.
  intros Hne Hall. rewrite (createOrder_nonempty _ _ _ _ _ Hne). cbn zeta.
  unfold runTransaction. by rewrite order_transaction_sdk.
Qed.

(** The end-to-end scenario of the specification: one line, product [A],
    quantity 2, price 100, stock 5. *)
Lemma createOrder_sdk_end_to_end :
  let db := store_A 5 {[ (7, 1) := CartRow 7 1 2 ]} in
  cart_of 7 db = [((7, 1), CartRow 7 1 2)]
  /\ createOrder firestore_sdk 7 sample_shipping 2000 db =
       (counter_bumped "orders" db, Return (Failed READ_AFTER_WRITE_ERROR_MSG)).
Proof.
  split; [reflexivity|].
  apply createOrder_sdk_read_after_write.
  - discriminate.
  - constructor; [|constructor]. exists (product_A 5). split; [reflexivity|]. cbn. lia.
Defined.

(** C2: a failing [createOrder] changes no product, no cart row and no
    order; it always returns a result object rather than throwing; when the
    transaction throws, the failure carries the error's message and the store
    is the one the transaction started from; and when some line is out of
    stock, or its product is gone, that message is the one of such a line --
    for a shortfall, the one naming the product. *)
Theorem createOrder_failure_atomic (raw : bool) (userId : Z) (sh : shipping) (now : Z)
    (db : firestore) :
  (exists r, (createOrder raw userId sh now db).2 = Return r)
  /\ (forall db' e,
        createOrder raw userId sh now db = (db', Return (Failed e)) ->
        products db' = products db /\ cart_items db' = cart_items db
        /\ orders db' = orders db)
  /\ (forall db2 message,
        cart_of userId db <> [] ->
        runTransaction
          (order_transaction raw userId (counter_value "orders" db) sh now (cart_of userId db))
          (counter_bumped "orders" db) = (db2, Throw message) ->
        createOrder raw userId sh now db
        = (counter_bumped "orders" db, Return (Failed (order_error message))))
  /\ (~ Forall (line_in_stock db) (cart_of userId db) ->
        exists d, d ∈ cart_of userId db /\
          match products db !! c_product_id d.2 with
          | None =>
              (createOrder raw userId sh now db).2
              = Return (Failed (js "Product not found in cart."))
          | Some p =>
              p_stock p < c_quantity d.2
              /\ (createOrder raw userId sh now db).2
                 = Return (Failed (js "Insufficient stock for " ++ p_name p ++ js "."))
          end).
Proof.
  split; [|split; [|split]].
  - destruct (createOrder_cases raw userId sh now db) as [[_ [e He]]|(_ & _ & _ & Hr)];
      eauto.
  - intros db' e Hrun.
    destruct (createOrder_cases raw userId sh now db) as [[Hdb _]|(_ & _ & _ & Hr)].
    + rewrite Hrun in Hdb. cbn in Hdb. by destruct Hdb as [-> | ->].
    + rewrite Hrun in Hr. discriminate.
  - intros db2 message Hne Hrun. rewrite (createOrder_nonempty _ _ _ _ _ Hne). cbn zeta.
    rewrite Hrun. by apply runTransaction_Throw in Hrun as ->.
  - intros Hbad.
    assert (cart_of userId db <> []) as Hne by (intros Hnil; apply Hbad; rewrite Hnil; constructor).
    rewrite (createOrder_nonempty _ _ _ _ _ Hne). cbn zeta. unfold runTransaction.
    destruct (order_transaction raw userId _ sh now (cart_of userId db)
                (counter_bumped "orders" db) []) as [[u ws]|e] eqn:Hrun.
    { apply order_transaction_Return in Hrun as [Hall _]. by destruct Hbad. }
    destruct (order_transaction_Throw _ _ _ _ _ _ _ _ Hrun Hbad) as (d & Hd & Hmsg).
    exists d. split; [done|]. cbn [products counter_bumped set_counters] in Hmsg.
    destruct (products db !! c_product_id d.2) as [p|].
    + destruct Hmsg as [Hq ->]. by split.
    + by rewrite Hmsg.
Qed.

(** A cart line of 9 against a stock of 5. *)
Lemma createOrder_failure_atomic_shortfall :
  let db := store_A 5 {[ (7, 1) := CartRow 7 1 9 ]} in
  let out := createOrder firestore_sdk 7 sample_shipping 2000 db in
  out.2 = Return (Failed (js "Insufficient stock for A."))
  /\ products out.1 = products db
  /\ cart_items out.1 = cart_items db
  /\ orders out.1 = orders db.
Proof.
  intros db out.
  destruct (createOrder_failure_atomic firestore_sdk 7 sample_shipping 2000 db)
    as (_ & Hsame & _ & Hmsg).
  assert (out.2 = Return (Failed (js "Insufficient stock for A."))) as Hr.
  { destruct Hmsg as (d & Hd & Hm).
    - intros Hall. apply Forall_cons in Hall as [(p & Hp & Hq) _].
      vm_compute in Hp. injection Hp as <-. vm_compute in Hq. by apply Hq.
    - apply list_elem_of_singleton in Hd as ->. exact (proj2 Hm). }
  split; [done|].
  apply (Hsame out.1 (js "Insufficient stock for A.")).
  rewrite <- Hr. symmetry. apply surjective_pairing.
Defined.

(** C3: stock stays non-negative.  [addToCart] and [updateCartItem] leave
    every product document as it is; a checkout changes a stock only by
    taking a cart line's quantity off the stock it read, after checking the
    quantity against that stock in the same transaction; so after any finite
    sequence of cart and checkout operations, on a store of either read
    policy, every stock that was at least 0 still is. *)
Theorem stock_nonneg_invariant (raw : bool) (db : firestore) :
  (forall u p q, products (addToCart raw u p q db).1 = products db)
  /\ (forall u p q, products (updateCartItem u p q db).1 = products db)
  /\ (forall u sh now id p',
        products (createOrder raw u sh now db).1 !! id = Some p' ->
        exists p, products db !! id = Some p
          /\ (p_stock p' = p_stock p
              \/ exists d, d ∈ cart_of u db /\ c_product_id d.2 = id
                           /\ c_quantity d.2 <= p_stock p
                           /\ p_stock p' = p_stock p - c_quantity d.2))
  /\ (stock_nonneg db -> forall ops, stock_nonneg (run_operations raw ops db)).
Proof.
  split; [|split; [|split]].
  - intros. apply addToCart_products.
  - intros. apply updateCartItem_products.
  - intros u sh now id p'. apply createOrder_stock_change.
  - intros Hdb ops. revert db Hdb. unfold run_operations.
    induction ops as [|op ops IH]; intros db Hdb; [done|].
    cbn [foldl]. apply IH. by apply run_operation_stock_nonneg.
Qed.

(** Add 2, raise the line to 3, check out, on a store that lets the
    checkout's second loop read. *)
Lemma stock_nonneg_invariant_run :
  stock_nonneg (store_A 5 ∅)
  /\ stock_nonneg
       (run_operations true
          [AddToCart 7 1 2; UpdateCartItem 7 1 3; PlaceOrder 7 sample_shipping 2000]
          (store_A 5 ∅))
  /\ p_stock <$> products
       (run_operations true
          [AddToCart 7 1 2; UpdateCartItem 7 1 3; PlaceOrder 7 sample_shipping 2000]
          (store_A 5 ∅)) !! 1 = Some 2.
Proof.
  assert (stock_nonneg (store_A 5 ∅)) as H5.
  { intros id p Hp. cbn [store_A products] in Hp.
    apply lookup_singleton_Some in Hp as [_ <-]. cbn. lia. }
  split; [done|]. split; [|reflexivity].
  exact (proj2 (proj2 (proj2 (stock_nonneg_invariant true (store_A 5 ∅)))) H5 _).
Defined.

(** [addToCart] writes the row under the id made of the row's own fields. *)
Lemma addToCart_cart_keyed (raw : bool) (userId productId quantity : Z) (db : firestore) :
  cart_keyed db -> cart_keyed (addToCart raw userId productId quantity db).1.
Proof.
  intros Hdb. rewrite addToCart_eq.
  destruct (products db !! productId) as [product|]; [|done].
  destruct (p_stock product <? quantity); [done|].
  intros k row Hrow. cbn in Hrow.
  destruct (decide ((userId, productId) = k)) as [<-|Hne].
  - rewrite lookup_insert_eq in Hrow. by injection Hrow as <-.
  - rewrite lookup_insert_ne in Hrow by done. by apply Hdb.
Qed.

Lemma addToCart_results (raw : bool) (userId productId quantity : Z) (db : firestore) :
  let out := addToCart raw userId productId quantity db in
  (out.2 = Return (Failed (js "Product not found.")) <-> products db !! productId = None)
  /\ (forall product, products db !! productId = Some product ->
        (out.2 = Return (Failed (js "Not enough stock available."))
         <-> p_stock product < quantity)
        /\ (quantity <= p_stock product ->
              out = (set_cart_items
                       <[(userId, productId) :=
                           CartRow userId productId
                             (Z.min (cart_quantity userId productId db + quantity)
                                (p_stock product))]> db,
                     Return (Ok tt))))
  /\ (forall e, out.2 = Return (Failed e) -> out.1 = db)
  /\ (forall k, k <> (userId, productId) -> cart_items out.1 !! k = cart_items db !! k).
Proof.
  intros out. subst out. rewrite addToCart_eq.
  destruct (products db !! productId) as [product|] eqn:Hp.
  - destruct (p_stock product <? quantity) eqn:Hq.
    + apply Z.ltb_lt in Hq. split; [split; intros [=]|]. split; [|done].
      intros product' [= <-]. split; [done|lia].
    + apply Z.ltb_ge in Hq. split; [split; intros [=]|]. split; [|split].
      * intros product' [= <-]. split; [|done]. split; [intros [=]|lia].
      * intros e [=].
      * intros k Hk. cbn. by rewrite lookup_insert_ne.
  - split; [done|]. split; [intros product [=]|done].
Qed.

(** C4: [addToCart] fails with "Product not found." exactly when the product
    is missing; for an existing product it fails with "Not enough stock
    available." exactly when the stock is below the requested quantity, and
    otherwise succeeds, writing the one row of the pair with quantity
    [min (current + requested) stock].  A failure writes nothing, no run
    touches any other cart row, and rows stay filed under the pair they
    name, so a pair never gets a second row. *)
Theorem addToCart_outcomes (raw : bool) (userId productId quantity : Z) (db : firestore) :
  let out := addToCart raw userId productId quantity db in
  (out.2 = Return (Failed (js "Product not found.")) <-> products db !! productId = None)
  /\ (forall product, products db !! productId = Some product ->
        (out.2 = Return (Failed (js "Not enough stock available."))
         <-> p_stock product < quantity)
        /\ (quantity <= p_stock product ->
              out = (set_cart_items
                       <[(userId, productId) :=
                           CartRow userId productId
                             (Z.min (cart_quantity userId productId db + quantity)
                                (p_stock product))]> db,
                     Return (Ok tt))))
  /\ (forall e, out.2 = Return (Failed e) -> out.1 = db)
  /\ (forall k, k <> (userId, productId) -> cart_items out.1 !! k = cart_items db !! k)
  /\ (cart_keyed db ->
      cart_keyed out.1
      /\ forall k row, cart_items out.1 !! k = Some row ->
                       c_user_id row = userId -> c_product_id row = productId ->
                       k = (userId, productId)).
Proof.
  intros out.
  destruct (addToCart_results raw userId productId quantity db) as (H1 & H2 & H3 & H4).
  split; [exact H1|]. split; [exact H2|]. split; [exact H3|]. split; [exact H4|].
  intros Hdb. pose proof (addToCart_cart_keyed raw userId productId quantity db Hdb) as Hk.
  split; [done|]. intros k row Hrow <- <-. by apply Hk.
Qed.

(** Cart 3, request 4, stock 5: the row ends at 5. *)
Lemma addToCart_outcomes_clamp :
  addToCart firestore_sdk 7 1 4 (store_A 5 {[ (7, 1) := CartRow 7 1 3 ]})
  = (store_A 5 {[ (7, 1) := CartRow 7 1 5 ]}, Return (Ok tt)).
Proof.
  destruct (addToCart_outcomes firestore_sdk 7 1 4 (store_A 5 {[ (7, 1) := CartRow 7 1 3 ]}))
    as (_ & Hfound & _).
  cbv zeta in Hfound.
  destruct (Hfound (product_A 5) eq_refl) as [_ Hok].
  rewrite Hok by (cbn; lia). reflexivity.
Defined.

(** C5 as stated (stock 5, empty cart, request 10: success with a row of 5)
    does not hold: the request is rejected and no row is written. *)
Lemma addToCart_request_over_stock :
  let out := addToCart firestore_sdk 7 1 10 (store_A 5 ∅) in
  out.2 = Return (Failed (js "Not enough stock available."))
  /\ out.2 <> Return (Ok tt)
  /\ cart_items out.1 !! (7, 1) = None
  /\ c_quantity <$> cart_items out.1 !! (7, 1) <> Some 5.
Proof. repeat split; discriminate. Qed.

(** C5, amended: a request above the stock is refused with "Not enough stock
    available." and the store is left as it was; the clamp is reached only by
    a request that fits the stock while its sum with the row's quantity does
    not, and then the call succeeds and the row holds exactly the stock. *)
Theorem addToCart_clamps_sum_not_request (raw : bool) (userId productId quantity : Z)
    (db : firestore) (product : product) :
  products db !! productId = Some product ->
  (p_stock product < quantity ->
     addToCart raw userId productId quantity db
     = (db, Return (Failed (js "Not enough stock available."))))
  /\ (quantity <= p_stock product ->
      p_stock product < cart_quantity userId productId db + quantity ->
        (addToCart raw userId productId quantity db).2 = Return (Ok tt)
        /\ cart_items (addToCart raw userId productId quantity db).1 !! (userId, productId)
           = Some (CartRow userId productId (p_stock product))).
Proof.
  intros Hp. rewrite addToCart_eq, Hp. split.
  - intros Hq. apply Z.ltb_lt in Hq. by rewrite Hq.
  - intros Hq Hsum. apply Z.ltb_ge in Hq. rewrite Hq. split; [done|].
    cbn. rewrite lookup_insert_eq. f_equal. f_equal. lia.
Qed.

(** Stock 5: a request of 10 on an empty cart, and a request of 4 on a row
    of 3. *)
Lemma addToCart_clamps_sum_not_request_at_5 :
  addToCart firestore_sdk 7 1 10 (store_A 5 ∅)
  = (store_A 5 ∅, Return (Failed (js "Not enough stock available.")))
  /\ cart_items (addToCart firestore_sdk 7 1 4 (store_A 5 {[ (7, 1) := CartRow 7 1 3 ]})).1
       !! (7, 1)
     = Some (CartRow 7 1 5).
Proof.
  split.
  - apply (addToCart_clamps_sum_not_request firestore_sdk 7 1 10 (store_A 5 ∅) (product_A 5));
      [reflexivity|cbn; lia].
  - apply (addToCart_clamps_sum_not_request firestore_sdk 7 1 4
             (store_A 5 {[ (7, 1) := CartRow 7 1 3 ]}) (product_A 5));
      [reflexivity|cbn; lia|vm_compute; reflexivity].
Defined.

(** ** Cart rows and their quantities *)

(** [addToCart] keeps every row positive: it refuses a product whose stock
    is below the request, so a request of at least 1 only ever meets a stock
    of at least 1. *)
Lemma addToCart_cart_positive (raw : bool) (userId productId quantity : Z) (db : firestore) :
  1 <= quantity -> cart_positive db ->
  cart_positive (addToCart raw userId productId quantity db).1.
Proof.
  intros Hq Hdb. rewrite addToCart_eq.
  destruct (products db !! productId) as [product|]; [|done].
  destruct (p_stock product <? quantity) eqn:Hst; [done|].
  apply Z.ltb_ge in Hst. intros k row Hrow. cbn in Hrow.
  destruct (decide ((userId, productId) = k)) as [<-|Hne].
  - rewrite lookup_insert_eq in Hrow. injection Hrow as <-. cbn.
    assert (0 <= cart_quantity userId productId db).
    { unfold cart_quantity. destruct (cart_items db !! (userId, productId)) as [c|] eqn:Hc; [|lia].
      specialize (Hdb _ _ Hc). lia. }
    lia.
  - rewrite lookup_insert_ne in Hrow by done. by eapply Hdb.
Qed.

Lemma removeCartItem_cart_positive (userId productId : Z) (db : firestore) :
  cart_positive db -> cart_positive (removeCartItem userId productId db).
Proof.
  intros Hdb k row Hrow. cbn in Hrow. apply lookup_delete_Some in Hrow as [_ Hrow].
  by eapply Hdb.
Qed.

(** [updateCartItem] keeps rows positive as long as the product it clamps
    against has stock. *)
Lemma updateCartItem_cart_positive (userId productId quantity : Z) (db : firestore) :
  all_in_stock db -> cart_positive db ->
  cart_positive (updateCartItem userId productId quantity db).1.
Proof.
  intros Hstock Hdb. unfold updateCartItem.
  destruct (Z.leb_spec quantity 0) as [Hq|Hq].
  - by apply (removeCartItem_cart_positive userId productId).
  - destruct (products db !! productId) as [product|] eqn:Hp; [|done].
    intros k row Hrow. cbn in Hrow.
    destruct (decide ((userId, productId) = k)) as [<-|Hne].
    + rewrite lookup_insert_eq in Hrow. injection Hrow as <-. cbn.
      specialize (Hstock _ _ Hp). lia.
    + rewrite lookup_insert_ne in Hrow by done. by eapply Hdb.
Qed.

(** While every product has stock, no sequence of cart operations leaves a
    row below 1. *)
Lemma cart_positive_while_in_stock (raw : bool) (ops : list operation) (db : firestore) :
  Forall cart_operation ops -> all_in_stock db -> cart_positive db ->
  cart_positive (run_operations raw ops db).
Proof.
  unfold run_operations. revert db.
  induction ops as [|op ops IH]; intros db Hops Hstock Hdb; [done|].
  apply Forall_cons in Hops as [Hop Hops]. cbn [foldl].
  destruct op as [u p q|u p q|u p|u sh now]; cbn in Hop; [| | |done]; cbn [run_operation].
  - apply IH; [done| |by apply addToCart_cart_positive].
    unfold all_in_stock. by rewrite addToCart_products.
  - apply IH; [done| |by apply updateCartItem_cart_positive].
    unfold all_in_stock. by rewrite updateCartItem_products.
  - apply IH; [done|done|by apply removeCartItem_cart_positive].
Qed.

(** C6 (what the program does where it breaks the claim): [updateCartItem]
    with a positive quantity on a product whose stock is 0 reports success
    and leaves the pair's row with quantity 0. *)
Theorem updateCartItem_zero_stock (userId productId quantity : Z) (db : firestore)
    (product : product) :
  products db !! productId = Some product ->
  p_stock product = 0 ->
  0 < quantity ->
  updateCartItem userId productId quantity db
  = (set_cart_items <[(userId, productId) := CartRow userId productId 0]> db, Ok false)
  /\ ~ cart_positive (updateCartItem userId productId quantity db).1.
Proof.
  intros Hp Hst Hq.
  assert (updateCartItem userId productId quantity db
          = (set_cart_items <[(userId, productId) := CartRow userId productId 0]> db, Ok false))
    as ->.
  { unfold updateCartItem. replace (quantity <=? 0) with false by (symmetry; apply Z.leb_gt; lia).
    rewrite Hp, Hst. by replace (Z.min quantity 0) with 0 by lia. }
  split; [done|]. intros Hpos.
  specialize (Hpos (userId, productId) (CartRow userId productId 0)).
  cbn in Hpos. rewrite lookup_insert_eq in Hpos. specialize (Hpos eq_refl). lia.
Qed.

(** A product out of stock, an empty cart, and the cart form's quantity 1. *)
Lemma updateCartItem_zero_stock_row :
  cart_positive (store_A 0 ∅)
  /\ updateCartItem 7 1 1 (store_A 0 ∅) = (store_A 0 {[ (7, 1) := CartRow 7 1 0 ]}, Ok false)
  /\ ~ cart_positive (updateCartItem 7 1 1 (store_A 0 ∅)).1.
Proof.
  split; [by intros k row Hrow|].
  destruct (updateCartItem_zero_stock 7 1 1 (store_A 0 ∅) (product_A 0)) as [Hrun Hneg];
    [reflexivity|reflexivity|lia|].
  split; [|done]. rewrite Hrun. reflexivity.
Defined.

(** ** Catalogue edits and committed orders *)

Lemma run_admin_orders (db : firestore) (op : admin_operation) :
  orders (run_admin db op) = orders db.
Proof.
  destruct op as [id payload|id]; cbn; [|done].
  unfold updateProduct. by destruct (products db !! id).
Qed.

(** C9: [updateProduct] and [deleteProduct] leave the [orders] collection
    untouched, so after any sequence of catalogue edits every committed order
    is found with the same items and total; [deleteProduct] removes the
    product and exactly the cart rows that reference it, and [updateProduct]
    removes no cart row at all. *)
Theorem catalogue_edits_keep_orders (db : firestore) :
  (forall id payload, orders (updateProduct id payload db).1 = orders db)
  /\ (forall id, orders (deleteProduct id db) = orders db)
  /\ (forall edits orderId, orders (foldl run_admin db edits) !! orderId = orders db !! orderId)
  /\ (forall id, products (deleteProduct id db) = delete id (products db))
  /\ (forall id k row,
        cart_items (deleteProduct id db) !! k = Some row
        <-> cart_items db !! k = Some row /\ c_product_id row <> id)
  /\ (forall id payload, cart_items (updateProduct id payload db).1 = cart_items db).
Proof.
  split; [|split; [|split; [|split; [|split]]]].
  - intros id payload. apply (run_admin_orders db (UpdateProduct id payload)).
  - done.
  - intros edits orderId. revert db.
    induction edits as [|op edits IH]; intros db; [done|].
    cbn [foldl]. by rewrite IH, run_admin_orders.
  - done.
  - intros id k row. cbn. rewrite map_lookup_filter_Some. cbn. tauto.
  - intros id payload. unfold updateProduct. by destruct (products db !! id).
Qed.

(** ** Sorting *)

Lemma Sorted_weaken {A : Type} (R R' : A -> A -> Prop) (l : list A) :
  (forall a b, R a b -> R' a b) -> Sorted R l -> Sorted R' l.
Proof.
  intros HR. induction 1 as [|x l Hl IH Hhd]; constructor; [done|].
  destruct Hhd; constructor. by apply HR.
Qed.

Section Sorting.

Context {A : Type} (cmp : A -> A -> Z).

Lemma js_sort_cons (x : A) (l : list A) :
  js_sort cmp (x :: l) = sort_insert cmp x (js_sort cmp l).
Proof. reflexivity. Qed.

Lemma sort_insert_Permutation (x : A) (l : list A) : sort_insert cmp x l ≡ₚ x :: l.
Proof.
  induction l as [|y l IH]; [done|]. cbn.
  destruct (cmp x y <=? 0); [done|]. rewrite IH. apply Permutation_swap.
Qed.

Lemma js_sort_Permutation (l : list A) : js_sort cmp l ≡ₚ l.
Proof.
  induction l as [|x l IH]; [done|].
  by rewrite js_sort_cons, sort_insert_Permutation, IH.
Qed.

Lemma sort_insert_fmap {B : Type} (f : B -> A) (x : B) (s : list B) :
  sort_insert cmp (f x) (f <$> s) = f <$> sort_insert (fun a b => cmp (f a) (f b)) x s.
Proof.
  induction s as [|y s IH]; [done|]. cbn.
  destruct (cmp (f x) (f y) <=? 0); [done|]. cbn. by rewrite <- IH.
Qed.

(** Decorating the elements commutes with sorting. *)
Lemma js_sort_fmap {B : Type} (f : B -> A) (l : list B) :
  js_sort cmp (f <$> l) = f <$> js_sort (fun a b => cmp (f a) (f b)) l.
Proof.
  induction l as [|x l IH]; [done|].
  by rewrite fmap_cons, !js_sort_cons, IH, sort_insert_fmap.
Qed.

(** For a comparator that is total, the result is sorted. *)
Hypothesis cmp_total : forall x y, 0 < cmp x y -> cmp y x <= 0.

Lemma sort_insert_Sorted (x : A) (l : list A) :
  Sorted (keeps_before cmp) l -> Sorted (keeps_before cmp) (sort_insert cmp x l).
Proof.
  induction 1 as [|y l Hl IH Hhd]; cbn.
  - by repeat constructor.
  - destruct (Z.leb_spec (cmp x y) 0) as [Hle|Hgt].
    + by repeat constructor.
    + constructor; [done|].
      destruct Hhd as [|z l Hyz]; cbn.
      * constructor. by apply cmp_total.
      * destruct (cmp x z <=? 0); constructor; [by apply cmp_total|done].
Qed.

Lemma js_sort_Sorted (l : list A) : Sorted (keeps_before cmp) (js_sort cmp l).
Proof.
  induction l as [|x l IH]; [constructor|]. rewrite js_sort_cons.
  by apply sort_insert_Sorted.
Qed.

End Sorting.

(** ** Order history *)

Lemma omap_docToObject {A : Type} (docs : list (Z * A)) :
  omap (fun d => docToObject d.1 (Some d.2)) docs = docs.
Proof.
  induction docs as [|[id d] docs IH]; [done|]. cbn. by f_equal.
Qed.

(** C10: [listOrdersByUser] returns exactly the orders whose [user_id] is
    the given user, each once, newest first. *)
Theorem listOrdersByUser_newest_first (userId : Z) (db : firestore) :
  (forall id o,
     (id, o) ∈ listOrdersByUser userId db <-> orders db !! id = Some o /\ o_user_id o = userId)
  /\ NoDup (listOrdersByUser userId db)
  /\ StronglySorted (fun a b => o_created_at b.2 <= o_created_at a.2)
       (listOrdersByUser userId db).
Proof.
  unfold listOrdersByUser. rewrite omap_docToObject. split; [|split].
  - intros id o. rewrite js_sort_Permutation, list_elem_of_filter, elem_of_map_to_list.
    cbn. tauto.
  - rewrite js_sort_Permutation. apply NoDup_filter, NoDup_map_to_list.
  - apply Sorted_StronglySorted; [intros a b c; lia|].
    eapply Sorted_weaken; [|apply (js_sort_Sorted by_created_at_desc)].
    + intros a b. unfold keeps_before, by_created_at_desc. lia.
    + intros x y. unfold by_created_at_desc. lia.
Qed.

(** ** Trimming and tokens *)

Lemma trimStart_head (s r : jsstring) (c : N) :
  trimStart s = c :: r -> is_whitespace c = false.
Proof.
  induction s as [|x s IH]; [done|]. cbn.
  destruct (is_whitespace x) eqn:Hx; [done|]. by intros [= <- _].
Qed.

Lemma trimStart_split (s : jsstring) :
  exists pre, s = pre ++ trimStart s /\ Forall (fun c => is_whitespace c = true) pre.
Proof.
  induction s as [|x s (pre & Hs & Hpre)]; [by exists []|]. cbn.
  destruct (is_whitespace x) eqn:Hx.
  - exists (x :: pre). split; [cbn; by f_equal|by constructor].
  - by exists [].
Qed.

Lemma trimStart_id (s : jsstring) (c : N) :
  head s = Some c -> is_whitespace c = false -> trimStart s = s.
Proof. destruct s as [|x s]; [done|]. intros [= ->] Hc. cbn. by rewrite Hc. Qed.

(** The trimmed string starts with no white space ... *)
Lemma trim_head (s : jsstring) (c : N) :
  head (trim s) = Some c -> is_whitespace c = false.
Proof.
  unfold trim. intros Hhd.
  destruct (trimStart_split (reverse (trimStart s))) as (pre & Hrev & _).
  apply (f_equal reverse) in Hrev. rewrite reverse_involutive, reverse_app in Hrev.
  apply head_Some in Hhd as [r Hr]. rewrite Hr in Hrev. cbn in Hrev.
  by eapply trimStart_head.
Qed.

(** ... and ends with none. *)
Lemma trim_last (s : jsstring) (c : N) :
  last (trim s) = Some c -> is_whitespace c = false.
Proof.
  unfold trim. rewrite last_reverse. intros Hhd.
  apply head_Some in Hhd as [r Hr]. by eapply trimStart_head.
Qed.

Lemma trim_id (s : jsstring) (c d : N) :
  head s = Some c -> is_whitespace c = false ->
  last s = Some d -> is_whitespace d = false ->
  trim s = s.
Proof.
  intros Hc Hcw Hd Hdw. unfold trim. rewrite (trimStart_id s c) by done.
  rewrite (trimStart_id (reverse s) d); [apply reverse_involutive| |done].
  by rewrite head_reverse.
Qed.

(** A piece that has started is never lost by the split. *)
Lemma split_ws_piece (piece s : jsstring) :
  piece <> [] -> exists t, t ∈ split_ws false piece s /\ t <> [].
Proof.
  revert piece. induction s as [|c s IH]; intros piece Hne; cbn.
  - exists piece. split; [left|done].
  - destruct (is_whitespace c).
    + exists piece. split; [left|done].
    + apply IH. by destruct piece.
Qed.

(** A key that starts with something other than white space has a token. *)
Lemma query_tokens_nonempty (key : jsstring) (c : N) :
  head key = Some c -> is_whitespace c = false -> query_tokens key <> [].
Proof.
  intros Hhd Hc. apply head_Some in Hhd as [r ->]. unfold query_tokens. cbn. rewrite Hc.
  destruct (split_ws_piece [c] r) as (t & Hin & Hne); [done|].
  intros Hnil. assert (t ∈ filter (fun t => t <> []) (split_ws false [c] r)) as Ht
    by (by apply list_elem_of_filter).
  rewrite Hnil in Ht. by apply elem_of_nil in Ht.
Qed.

Section TextFacts.

Context `{Unicode}.

(** A normalised query without tokens is the empty string. *)
Lemma query_tokens_nil (q : jsstring) :
  query_tokens (normalizeText q) = [] -> normalizeText q = [].
Proof.
  intros Hnil. destruct (normalizeText q) as [|c r] eqn:Hkey; [done|].
  destruct (query_tokens_nonempty (c :: r) c); [done| |done].
  apply (trim_head (toLowerCase
           (replace_unit LATIN_CAPITAL_D_STROKE 68
              (replace_unit LATIN_SMALL_D_STROKE 100
                 (filter (fun c => is_combining_mark c = false) (normalizeNFD q)))))).
  fold (normalizeText q). by rewrite Hkey.
Qed.

(** On ASCII text only lower-casing and trimming are left. *)
Lemma normalizeText_ascii (value : jsstring) :
  Forall is_ascii value -> normalizeText value = trim (ascii_lower <$> value).
Proof.
  intros Hascii. unfold normalizeText. rewrite (normalizeNFD_ascii _ Hascii).
  assert (filter (fun c => is_combining_mark c = false) value = value) as ->.
  { induction Hascii as [|c s Hc Hs IH]; [done|]. rewrite filter_cons_True, IH; [done|].
    unfold is_combining_mark, is_ascii in *. apply andb_false_iff. left. apply N.leb_gt. lia. }
  assert (forall x y, (128 <= x)%N -> replace_unit x y value = value) as Hrep.
  { intros x y Hx. unfold replace_unit.
    induction Hascii as [|c s Hc Hs IH]; [done|]. cbn. rewrite IH. f_equal.
    unfold is_ascii in Hc. destruct (N.eqb_spec c x); [lia|done]. }
  rewrite !Hrep by (unfold LATIN_SMALL_D_STROKE, LATIN_CAPITAL_D_STROKE; lia).
  by rewrite (toLowerCase_ascii _ Hascii).
Qed.

End TextFacts.

(** ** Normalisation *)

Ltac ascii_text := vm_compute; repeat constructor.

Lemma is_whitespace_letter (c : N) : (65 <= c <= 122)%N -> is_whitespace c = false.
Proof.
  intros Hc. unfold is_whitespace.
  repeat match goal with
         | |- context [(?a =? ?b)%N] => destruct (N.eqb_spec a b); [lia|]
         end.
  destruct (N.leb_spec 8192 c); [lia|done].
Qed.

Lemma is_whitespace_ascii_lower (c : N) :
  is_whitespace (ascii_lower c) = is_whitespace c.
Proof.
  unfold ascii_lower.
  destruct (N.leb_spec 65 c), (N.leb_spec c 90); cbn; try done.
  rewrite !is_whitespace_letter; [done|lia..].
Qed.

Lemma replace_unit_clean (x y : N) (P : N -> Prop) (s : jsstring) :
  P y -> Forall P s -> Forall (fun c => P c /\ (x <> y -> c <> x)) (replace_unit x y s).
Proof.
  intros Hy Hs. unfold replace_unit. apply Forall_fmap.
  eapply Forall_impl; [exact Hs|]. intros c Hc. cbn.
  destruct (N.eqb_spec c x) as [->|Hne]; by split.
Qed.

(** C7 as stated does not hold: on [a], two spaces, [b] the program keeps
    both spaces where the specification's normalisation leaves one. *)
Lemma normalizeText_keeps_inner_whitespace :
  exists value, forall U : Unicode,
    @normalizeText U value = js "a  b"
    /\ @spec_normalizeText U value = js "a b"
    /\ @normalizeText U value <> @spec_normalizeText U value.
Proof.
  exists (js "a  b"). intros U.
  assert (@normalizeText U (js "a  b") = js "a  b") as Hcode
    by (rewrite normalizeText_ascii by ascii_text; reflexivity).
  assert (@spec_normalizeText U (js "a  b") = js "a b") as Hspec
    by (change (collapse_whitespace false (@normalizeText U (js "a  b")) = js "a b");
        rewrite Hcode; reflexivity).
  split; [done|]. split; [done|]. rewrite Hcode, Hspec. discriminate.
Qed.

(** C7, amended: [normalizeText] decomposes, removes the combining marks
    U+0300..U+036F, maps the stroked d's to [d] and [D], lower-cases and
    trims, so that its result neither starts nor ends with white space; it
    does not collapse white space inside the text -- the specification's
    normalisation is this one followed by the collapse.  On ASCII text it is
    lower-casing followed by trimming, and ASCII text that has nothing to trim
    comes back unit for unit, every inner run of white space as it was. *)
Theorem normalizeText_steps (U : Unicode) (value : jsstring) :
  let folded :=
    replace_unit LATIN_CAPITAL_D_STROKE 68
      (replace_unit LATIN_SMALL_D_STROKE 100
         (filter (fun c => is_combining_mark c = false) (normalizeNFD value))) in
  (normalizeText value = trim (toLowerCase folded)
   /\ Forall (fun c => is_combining_mark c = false
                       /\ c <> LATIN_SMALL_D_STROKE /\ c <> LATIN_CAPITAL_D_STROKE) folded)
  /\ (forall c, head (normalizeText value) = Some c -> is_whitespace c = false)
  /\ (forall c, last (normalizeText value) = Some c -> is_whitespace c = false)
  /\ spec_normalizeText value = collapse_whitespace false (normalizeText value)
  /\ (Forall is_ascii value -> normalizeText value = trim (ascii_lower <$> value))
  /\ (Forall is_ascii value ->
      forall c d, head value = Some c -> is_whitespace c = false ->
                  last value = Some d -> is_whitespace d = false ->
                  normalizeText value = ascii_lower <$> value).
Proof.
  intros folded. split; [split; [done|]|split; [|split; [|split; [done|split]]]].
  - subst folded.
    eapply Forall_impl;
      [apply (replace_unit_clean LATIN_CAPITAL_D_STROKE 68
                (fun c => is_combining_mark c = false /\ c <> LATIN_SMALL_D_STROKE));
       [done|]|].
    + eapply Forall_impl;
        [apply (replace_unit_clean LATIN_SMALL_D_STROKE 100
                  (fun c => is_combining_mark c = false)); [done|]|].
      * apply Forall_forall. intros c Hc. by apply list_elem_of_filter in Hc as [? _].
      * intros c [Hm Hd]. split; [done|]. by apply Hd.
    + intros c [[Hm Hd] HD]. split; [done|]. split; [done|]. by apply HD.
  - apply trim_head.
  - apply trim_last.
  - apply normalizeText_ascii.
  - intros Hascii c d Hc Hcw Hd Hdw. rewrite normalizeText_ascii by done.
    apply (trim_id _ (ascii_lower c) (ascii_lower d)).
    + destruct value; [done|]. by injection Hc as ->.
    + by rewrite is_whitespace_ascii_lower.
    + apply last_Some in Hd as [l' ->]. rewrite fmap_app. apply last_snoc.
    + by rewrite is_whitespace_ascii_lower.
Qed.

(** On [" Pixel  11 "] the ends go and the inner run of two spaces stays;
    [Pixel  11] is only lower-cased. *)
Lemma normalizeText_steps_pixel :
  @normalizeText ascii_runtime (js " Pixel  11 ") = js "pixel  11"
  /\ @normalizeText ascii_runtime (js "Pixel  11") = js "pixel  11".
Proof.
  destruct (normalizeText_steps ascii_runtime (js " Pixel  11 ")) as (_ & _ & _ & _ & H1 & _).
  destruct (normalizeText_steps ascii_runtime (js "Pixel  11")) as (_ & _ & _ & _ & _ & H2).
  split.
  - rewrite H1 by ascii_text. reflexivity.
  - rewrite (H2 ltac:(ascii_text) 80%N 49%N) by reflexivity. reflexivity.
Defined.

(** ** Search *)

Lemma filter_fmap' {A B : Type} (f : A -> B) (P : B -> Prop) `{forall x, Decision (P x)}
    (l : list A) :
  filter P (f <$> l) = f <$> filter (fun a => P (f a)) l.
Proof.
  induction l as [|x l IH]; [done|].
  rewrite fmap_cons, !filter_cons. destruct (decide (P (f x))); by rewrite ?fmap_cons, IH.
Qed.

Lemma startsWith_nil (s : jsstring) : startsWith s [] = true.
Proof. by destruct s. Qed.

Lemma includes_nil (s : jsstring) : includes s [] = true.
Proof. by destruct s. Qed.

Section SearchFacts.

Context `{Unicode}.

(** Scores are computed once and sorted with the products: the result is
    the sort of the products themselves under the comparator on their
    scores. *)
Lemma listProducts_undecorated (category q : jsstring) (db : firestore) :
  q <> [] ->
  listProducts category q db =
    js_sort (fun a b => by_score (a, query_score q a) (b, query_score q b))
      (filter (fun p => 0 < query_score q p) (candidates category db)).
Proof.
  intros Hq. unfold listProducts, query_score. destruct q as [|c q]; [done|]. cbv zeta.
  rewrite (filter_fmap' _ (fun x => 0 < x.2)).
  rewrite js_sort_fmap, <- list_fmap_compose. apply list_fmap_id.
Qed.

(** With at least one token the program's score is the specification's. *)
Lemma query_score_tokens (q : jsstring) (p : Z * product) :
  query_tokens (normalizeText q) <> [] -> query_score q p = spec_score q p.
Proof.
  intros Hne. unfold query_score, product_score, spec_score.
  destruct (query_tokens (normalizeText q)) as [|t ts] eqn:Htok; [done|].
  cbn [length Nat.eqb negb andb].
  repeat match goal with
         | |- context [if ?b then _ else _] => destruct b
         end; lia.
Qed.

(** Without tokens the key is empty: every product scores at least 100 and
    the two scores differ by the same 35 for all of them. *)
Lemma query_score_no_tokens (q : jsstring) (p : Z * product) :
  query_tokens (normalizeText q) = [] ->
  spec_score q p = query_score q p + 35 /\ 100 <= query_score q p.
Proof.
  intros Hnil. unfold query_score, product_score, spec_score.
  rewrite Hnil, (query_tokens_nil _ Hnil), !includes_nil, !startsWith_nil. cbn.
  destruct (bool_decide _); lia.
Qed.

Lemma query_score_positive (q : jsstring) (p : Z * product) :
  0 < query_score q p <-> 0 < spec_score q p.
Proof.
  destruct (decide (query_tokens (normalizeText q) = [])) as [Hnil|Hne].
  - destruct (query_score_no_tokens q p Hnil). lia.
  - by rewrite query_score_tokens.
Qed.

Lemma by_score_ranked (q : jsstring) (a b : Z * product) :
  by_score (a, query_score q a) (b, query_score q b) <= 0 <-> ranked_before q a b.
Proof.
  unfold by_score, ranked_before, newest_first. cbn [fst snd].
  assert (spec_score q b - spec_score q a = query_score q b - query_score q a) as Hd.
  { destruct (decide (query_tokens (normalizeText q) = [])) as [Hnil|Hne].
    - destruct (query_score_no_tokens q a Hnil), (query_score_no_tokens q b Hnil). lia.
    - by rewrite !query_score_tokens. }
  destruct (Z.eqb_spec (query_score q b - query_score q a) 0); lia.
Qed.

Lemma ranked_before_trans (q : jsstring) : Transitive (ranked_before q).
Proof. intros a b c. unfold ranked_before. lia. Qed.

Lemma listProducts_ranked (category q : jsstring) (db : firestore) :
  q <> [] ->
  listProducts category q db ≡ₚ filter (fun p => 0 < spec_score q p) (candidates category db)
  /\ StronglySorted (ranked_before q) (listProducts category q db).
Proof.
  intros Hq. rewrite listProducts_undecorated by done. split.
  - rewrite js_sort_Permutation. apply reflexive_eq, list_filter_iff, query_score_positive.
  - apply (@Sorted_StronglySorted _ (ranked_before q) (ranked_before_trans q)).
    eapply Sorted_weaken; [|apply js_sort_Sorted].
    + intros a b. apply by_score_ranked.
    + intros x y. unfold by_score, newest_first. cbn [fst snd].
      destruct (Z.eqb_spec (query_score q y - query_score q x) 0),
               (Z.eqb_spec (query_score q x - query_score q y) 0); lia.
Qed.

(** On ASCII text the score does not depend on the runtime's tables. *)
Lemma query_score_ascii (q : jsstring) (p : Z * product) :
  Forall is_ascii q -> Forall is_ascii (p_name p.2) -> Forall is_ascii (p_description p.2) ->
  query_score q p = @query_score ascii_runtime q p.
Proof.
  intros Hq Hn Hd. unfold query_score, product_score.
  by rewrite !normalizeText_ascii.
Qed.

End SearchFacts.

Lemma candidates_elem_of (category : jsstring) (db : firestore) (id : Z) (p : product) :
  (id, p) ∈ candidates category db
  <-> products db !! id = Some p /\ (category = [] \/ p_category p = category).
Proof.
  unfold candidates. rewrite omap_docToObject. destruct category as [|c category].
  - rewrite elem_of_map_to_list. split; [by auto|by intros [? _]].
  - rewrite list_elem_of_filter, elem_of_map_to_list. cbn. split.
    + intros [? ?]. by auto.
    + by intros [? [?|?]].
Qed.

(** C8: for a non-empty query, the candidates are the products of the
    category (all of them when there is none); the listing is a rearrangement
    of the candidates whose score -- the sum of the six bonuses 100, 60, 40,
    30, 10 and 5 of the specification -- is positive, in order of decreasing
    score and, at equal score, of decreasing [created_at].  The program's
    own score is that sum whenever the normalised query has a token.  For
    the query [iphone] over "iPhone 16 Pro" and "Wireless Earbuds Pro" (the
    seed products with their seed descriptions) the listing is "iPhone 16
    Pro" alone. *)
Theorem listProducts_ranking (U : Unicode) (category q : jsstring) (db : firestore) :
  q <> [] ->
  (forall id p, (id, p) ∈ candidates category db
                <-> products db !! id = Some p /\ (category = [] \/ p_category p = category))
  /\ (forall p, query_tokens (normalizeText q) <> [] -> query_score q p = spec_score q p)
  /\ listProducts category q db
       ≡ₚ filter (fun p => 0 < spec_score q p) (candidates category db)
  /\ StronglySorted (ranked_before q) (listProducts category q db)
  /\ (forall t1 t5,
        listProducts [] (js "iphone") (two_product_catalogue t1 t5) = [(1, seed_iphone t1)]).
Proof.
  intros Hq. split; [|split; [|split; [|split]]].
  - intros id p. apply candidates_elem_of.
  - intros p Hne. by apply query_score_tokens.
  - by apply listProducts_ranked.
  - by apply listProducts_ranked.
  - intros t1 t5. rewrite listProducts_undecorated by done.
    replace (candidates [] (two_product_catalogue t1 t5))
      with [(5, seed_earbuds t5); (1, seed_iphone t1)] by (vm_compute; reflexivity).
    assert (query_score (js "iphone") (5, seed_earbuds t5) = 0) as H0
      by (rewrite query_score_ascii by ascii_text; vm_compute; reflexivity).
    assert (query_score (js "iphone") (1, seed_iphone t1) = 130) as H1
      by (rewrite query_score_ascii by ascii_text; vm_compute; reflexivity).
    rewrite !filter_cons, filter_nil.
    destruct (decide (0 < query_score (js "iphone") (5, seed_earbuds t5))) as [Hpos|_];
      [lia|].
    destruct (decide (0 < query_score (js "iphone") (1, seed_iphone t1))) as [_|Hneg];
      [reflexivity|lia].
Qed.

(** The query [pro] matches both seed products with the same score; the
    newer one comes first. *)
Lemma listProducts_ranking_pro :
  @listProducts ascii_runtime [] (js "pro") (two_product_catalogue 10 20)
  = [(5, seed_earbuds 20); (1, seed_iphone 10)]
  /\ StronglySorted (@ranked_before ascii_runtime (js "pro"))
       (@listProducts ascii_runtime [] (js "pro") (two_product_catalogue 10 20))
  /\ @listProducts ascii_runtime [] (js "iphone") (two_product_catalogue 10 20)
     = [(1, seed_iphone 10)].
Proof.
  destruct (listProducts_ranking ascii_runtime [] (js "pro") (two_product_catalogue 10 20))
    as (_ & _ & _ & Hsorted & Hiphone); [discriminate|].
  split; [vm_compute; reflexivity|]. split; [exact Hsorted|apply Hiphone].
Defined.

(** ** The checkout on a store that lets a transaction read after a write

    [createOrder] fails on the Firestore SDK only because of where its second
    loop reads.  On a store without that rule the same code places the order
    the way the specification's end-to-end scenario describes it. *)


Lemma orders_after_line_writes (db : firestore) (docs : list ((Z * Z) * cart_row))
    (m : gmap Z order) :
  orders_after (flat_map (line_writes db) docs) m = m.
Proof.
  unfold orders_after. revert m. induction docs as [|d docs IH]; intros m; [done|].
  cbn [flat_map]. rewrite foldl_app, IH. unfold line_writes.
  by destruct (products db !! c_product_id d.2).
Qed.

Lemma cart_after_line_writes (db : firestore) (docs : list ((Z * Z) * cart_row))
    (m : gmap (Z * Z) cart_row) (k : Z * Z) :
  Forall (line_in_stock db) docs ->
  cart_after (flat_map (line_writes db) docs) m !! k
  = if decide (k ∈ docs.*1) then None else m !! k.
Proof.
  unfold cart_after. revert m. induction docs as [|d docs IH]; intros m Hall.
  - cbn. by rewrite decide_False by apply not_elem_of_nil.
  - apply Forall_cons in Hall as [(p & Hp & _) Hall].
    cbn [flat_map]. rewrite foldl_app, IH by done. unfold line_writes. rewrite Hp. cbn.
    destruct (decide (k ∈ docs.*1)) as [Hin|Hnin].
    + rewrite decide_True; [done|by right].
    + destruct (decide (d.1 = k)) as [<-|Hne].
      * rewrite decide_True by left. apply lookup_delete_eq.
      * rewrite decide_False by (by intros [?|?]%elem_of_cons).
        by apply lookup_delete_ne.
Qed.









(** ** One row per pair, in every reachable store *)

Lemma createOrder_cart_rows (raw : bool) (userId : Z) (sh : shipping) (now : Z)
    (db : firestore) (k : Z * Z) (row : cart_row) :
  cart_items (createOrder raw userId sh now db).1 !! k = Some row ->
  cart_items db !! k = Some row.
Proof.
  destruct (createOrder_cases raw userId sh now db) as [[[-> | ->] _]|(_ & Hall & Hcommit & _)];
    [done|done|].
  apply commit_Some in Hcommit. rewrite Hcommit. cbn [cart_items].
  change (cart_after (flat_map (line_writes db) (cart_of userId db)) (cart_items db) !! k
          = Some row -> cart_items db !! k = Some row).
  rewrite cart_after_line_writes by done. by destruct (decide _).
Qed.

Lemma run_operation_cart_keyed (raw : bool) (db : firestore) (op : operation) :
  cart_keyed db -> cart_keyed (run_operation raw db op).
Proof.
  intros Hdb. destruct op as [u p q|u p q|u p|u sh now]; cbn [run_operation].
  - by apply addToCart_cart_keyed.
  - unfold updateCartItem. destruct (q <=? 0).
    + intros k row Hrow. cbn in Hrow. apply lookup_delete_Some in Hrow as [_ Hrow].
      by apply Hdb.
    + destruct (products db !! p) as [product|]; [|done].
      intros k row Hrow. cbn in Hrow.
      destruct (decide ((u, p) = k)) as [<-|Hne].
      * rewrite lookup_insert_eq in Hrow. by injection Hrow as <-.
      * rewrite lookup_insert_ne in Hrow by done. by apply Hdb.
  - intros k row Hrow. cbn in Hrow. apply lookup_delete_Some in Hrow as [_ Hrow].
    by apply Hdb.
  - intros k row Hrow. apply createOrder_cart_rows in Hrow. by apply Hdb.
Qed.

Lemma run_operations_cart_keyed (raw : bool) (ops : list operation) (db : firestore) :
  cart_keyed db -> cart_keyed (run_operations raw ops db).
Proof.
  unfold run_operations. revert db. induction ops as [|op ops IH]; intros db Hdb; [done|].
  cbn [foldl]. by apply IH, run_operation_cart_keyed.
Qed.

(** ** The checkout on the SDK never places an order *)

Lemma createOrder_sdk_never_ok (userId : Z) (sh : shipping) (now : Z) (db : firestore) :
  exists e, (createOrder firestore_sdk userId sh now db).2 = Return (Failed e).
Proof.
  destruct (createOrder_cases firestore_sdk userId sh now db)
    as [[_ He]|(Hne & Hall & _ & _)]; [done|].
  rewrite (createOrder_nonempty _ _ _ _ _ Hne). cbn zeta. unfold runTransaction.
  rewrite order_transaction_sdk by done. by eexists.
Qed.

(** * The rest of the data layer *)

(** ** Identity counters *)

Lemma counter_value_bumped (key key' : string) (db : firestore) :
  counter_value key' (counter_bumped key db)
  = if decide (key = key')
    then (if counter_value key db + 1 =? 0 then 1 else counter_value key db + 1)
    else counter_value key' db.
Proof.
  unfold counter_value at 1. cbn [counter_bumped set_counters counters].
  destruct (decide (key = key')) as [<-|Hne].
  - by rewrite lookup_insert_eq.
  - by rewrite lookup_insert_ne.
Qed.

Lemma issue_ids_from (raw : bool) (key : string) (n : nat) (db : firestore) :
  1 <= counter_value key db ->
  (issue_ids raw key n db).2 = (fun i => counter_value key db + Z.of_nat i) <$> seq 0 n
  /\ counter_value key (issue_ids raw key n db).1 = counter_value key db + Z.of_nat n
  /\ products (issue_ids raw key n db).1 = products db
  /\ cart_items (issue_ids raw key n db).1 = cart_items db
  /\ orders (issue_ids raw key n db).1 = orders db
  /\ forall key', key' <> key ->
       counters (issue_ids raw key n db).1 !! key' = counters db !! key'.
Proof.
  revert db. induction n as [|n IH]; intros db Hv.
  { cbn. repeat split; try done. lia. }
  cbn [issue_ids]. rewrite nextId_eq. cbn [fst snd].
  assert (counter_value key (counter_bumped key db) = counter_value key db + 1) as Hnext.
  { rewrite counter_value_bumped, decide_True by done.
    destruct (Z.eqb_spec (counter_value key db + 1) 0); [lia|done]. }
  destruct (IH (counter_bumped key db)) as (Hids & Hc & Hp & Hcart & Ho & Hk); [lia|].
  rewrite Hids, Hc, Hp, Hcart, Ho, Hnext. repeat split; try done.
  - cbn [seq fmap list_fmap]. f_equal; [f_equal; lia|].
    rewrite <- seq_shift, <- list_fmap_compose. apply list_fmap_ext. intros _ i _. cbn. lia.
  - lia.
  - intros key' Hne. rewrite Hk by done. cbn. by rewrite lookup_insert_ne.
Qed.

(** [nextId] issues consecutive ids: from a counter that reads at least 1
    (a missing counter reads 1), [n] calls in a row return that value and
    the [n - 1] values that follow it, so no id is issued twice; the calls
    write nothing but their own counter. *)
Theorem nextId_issues_consecutive_ids (raw : bool) (key : string) (n : nat) (db : firestore) :
  1 <= counter_value key db ->
  (issue_ids raw key n db).2 = (fun i => counter_value key db + Z.of_nat i) <$> seq 0 n
  /\ NoDup (issue_ids raw key n db).2
  /\ counter_value key (issue_ids raw key n db).1 = counter_value key db + Z.of_nat n
  /\ products (issue_ids raw key n db).1 = products db
  /\ cart_items (issue_ids raw key n db).1 = cart_items db
  /\ orders (issue_ids raw key n db).1 = orders db
  /\ forall key', key' <> key ->
       counters (issue_ids raw key n db).1 !! key' = counters db !! key'.
Proof.
  intros Hv. destruct (issue_ids_from raw key n db Hv) as (Hids & Hrest).
  split; [done|]. split; [|done]. rewrite Hids.
  apply NoDup_fmap_2; [|apply NoDup_seq]. intros i j Hij. lia.
Qed.

(** Three ids for orders on a store whose counter document is missing. *)
Lemma nextId_issues_consecutive_ids_from_1 :
  (issue_ids firestore_sdk "orders" 3 (Firestore ∅ ∅ ∅ ∅)).2 = [1; 2; 3]
  /\ NoDup (issue_ids firestore_sdk "orders" 3 (Firestore ∅ ∅ ∅ ∅)).2.
Proof.
  destruct (nextId_issues_consecutive_ids firestore_sdk "orders" 3 (Firestore ∅ ∅ ∅ ∅))
    as (Hids & Hnd & _); [vm_compute; discriminate|].
  split; [|exact Hnd]. rewrite Hids. reflexivity.
Defined.

Lemma ensure_counter_lookup (db : firestore) (key key' : string) (v : Z) :
  counters db !! key' = Some v -> counters (ensure_counter db key) !! key' = Some v.
Proof.
  intros Hv. unfold ensure_counter. destruct (counters db !! key) eqn:Hk; [done|].
  cbn. rewrite lookup_insert_ne; [done|]. intros ->. congruence.
Qed.

Lemma ensure_counter_is_Some (db : firestore) (key : string) :
  is_Some (counters (ensure_counter db key) !! key).
Proof.
  unfold ensure_counter. destruct (counters db !! key) eqn:Hk; [by rewrite Hk|].
  cbn. rewrite lookup_insert_eq. by eexists.
Qed.

Lemma ensure_counter_id (db : firestore) (key : string) :
  is_Some (counters db !! key) -> ensure_counter db key = db.
Proof. intros [v Hv]. unfold ensure_counter. by rewrite Hv. Qed.

Lemma ensure_counter_value (db : firestore) (key key' : string) :
  counter_value key' (ensure_counter db key) = counter_value key' db.
Proof.
  unfold ensure_counter. destruct (counters db !! key) eqn:Hk; [done|].
  unfold counter_value. cbn. destruct (decide (key = key')) as [<-|Hne].
  - by rewrite lookup_insert_eq, Hk.
  - by rewrite lookup_insert_ne.
Qed.

(** [ensureCounterDocs] creates the three counter documents that are
    missing and changes nothing else: existing counters keep their value,
    the id [nextId] issues next is the same for every key with or without
    it, and running it again leaves the store as it is. *)
Theorem ensureCounterDocs_idempotent (raw : bool) (db : firestore) :
  ensureCounterDocs (ensureCounterDocs db) = ensureCounterDocs db
  /\ (forall key, key ∈ ["users"; "products"; "orders"] ->
        is_Some (counters (ensureCounterDocs db) !! key))
  /\ (forall key v, counters db !! key = Some v ->
        counters (ensureCounterDocs db) !! key = Some v)
  /\ (forall key, (nextId raw key (ensureCounterDocs db)).2 = (nextId raw key db).2)
  /\ products (ensureCounterDocs db) = products db
  /\ cart_items (ensureCounterDocs db) = cart_items db
  /\ orders (ensureCounterDocs db) = orders db.
Proof.
  assert (forall key, key ∈ ["users"; "products"; "orders"] ->
            is_Some (counters (ensureCounterDocs db) !! key)) as Hall.
  { intros key Hkey. unfold ensureCounterDocs. cbn [foldl].
    repeat (apply elem_of_cons in Hkey as [->|Hkey]).
    - destruct (ensure_counter_is_Some db "users") as [v Hv].
      exists v. by do 2 apply ensure_counter_lookup.
    - destruct (ensure_counter_is_Some (ensure_counter db "users") "products") as [v Hv].
      exists v. by apply ensure_counter_lookup.
    - apply ensure_counter_is_Some.
    - by apply elem_of_nil in Hkey. }
  split; [|split; [done|split; [|split; [|split; [|split]]]]].
  - unfold ensureCounterDocs at 1. cbn [foldl].
    rewrite (ensure_counter_id _ "users") by (apply Hall; set_solver).
    rewrite (ensure_counter_id _ "products") by (apply Hall; set_solver).
    apply ensure_counter_id, Hall. set_solver.
  - intros key v Hv. unfold ensureCounterDocs. cbn [foldl].
    by do 3 apply ensure_counter_lookup.
  - intros key. rewrite !nextId_eq. cbn [snd]. f_equal.
    unfold ensureCounterDocs. cbn [foldl]. by rewrite !ensure_counter_value.
  - unfold ensureCounterDocs, ensure_counter. cbn [foldl].
    repeat (destruct (counters _ !! _); cbn; try done).
  - unfold ensureCounterDocs, ensure_counter. cbn [foldl].
    repeat (destruct (counters _ !! _); cbn; try done).
  - unfold ensureCounterDocs, ensure_counter. cbn [foldl].
    repeat (destruct (counters _ !! _); cbn; try done).
Qed.

(** ** Catalogue: create, read, update, delete *)

Lemma createProduct_eq (raw : bool) (payload : product_fields) (now : Z) (db : firestore) :
  createProduct raw payload now db
  = (set_products <[counter_value "products" db := new_product now payload]>
       (counter_bumped "products" db),
     Return (counter_value "products" db, new_product now payload)).
Proof. unfold createProduct. by rewrite nextId_eq. Qed.

Lemma counter_value_succ (key : string) (db : firestore) :
  1 <= counter_value key db ->
  counter_value key (counter_bumped key db) = counter_value key db + 1.
Proof.
  intros Hv. rewrite counter_value_bumped, decide_True by done.
  destruct (Z.eqb_spec (counter_value key db + 1) 0); [lia|done].
Qed.

(** [createProduct] stores the payload, stamped with the clock reading,
    under the next product id and returns it with that id; reading the id
    back gives the same object and every other id reads as before, carts and
    orders are untouched.  On a store whose product ids were all issued by
    the counter the id was free, so no product is overwritten. *)
Theorem createProduct_then_getProductById (raw : bool) (payload : product_fields) (now : Z)
    (db : firestore) :
  let out := createProduct raw payload now db in
  let id := counter_value "products" db in
  out.2 = Return (id, new_product now payload)
  /\ getProductById id out.1 = Some (id, new_product now payload)
  /\ (forall id', id' <> id -> getProductById id' out.1 = getProductById id' db)
  /\ cart_items out.1 = cart_items db
  /\ orders out.1 = orders db
  /\ (product_ids_issued db -> getProductById id db = None /\ product_ids_issued out.1).
Proof.
  intros out id. subst out. rewrite createProduct_eq. fold id. cbn [fst snd].
  unfold getProductById. cbn [products set_products counter_bumped set_counters].
  split; [done|]. split; [by rewrite lookup_insert_eq|].
  split; [by intros id' Hne; rewrite lookup_insert_ne|]. split; [done|]. split; [done|].
  intros [Hv Hids]. split.
  - destruct (products db !! id) as [p|] eqn:Hp; [|done].
    specialize (Hids _ _ Hp). unfold id in Hids. lia.
  - split.
    + change (1 <= counter_value "products" (counter_bumped "products" db)).
      rewrite counter_value_succ by done. lia.
    + intros id' p Hp.
      change (id' < counter_value "products" (counter_bumped "products" db)).
      rewrite counter_value_succ by done.
      cbn [products set_products counter_bumped set_counters] in Hp.
      destruct (decide (id = id')) as [<-|Hne]; [unfold id; lia|].
      rewrite lookup_insert_ne in Hp by done. specialize (Hids _ _ Hp). lia.
Qed.

(** [updateProduct] on a missing id returns [null] and writes nothing.  On
    an existing product it returns what [getProductById] then reads: the old
    document with the payload's fields laid over it, same id and same
    [created_at]; no other product, cart row, order or counter changes, and
    sending the same payload again changes nothing. *)
Theorem updateProduct_merges (id : Z) (payload : product_payload) (db : firestore) :
  (products db !! id = None -> updateProduct id payload db = (db, None))
  /\ (forall p, products db !! id = Some p ->
        let out := updateProduct id payload db in
        out.2 = Some (id, merge_product payload p)
        /\ getProductById id out.1 = out.2
        /\ p_created_at (merge_product payload p) = p_created_at p
        /\ (forall id', id' <> id -> getProductById id' out.1 = getProductById id' db)
        /\ cart_items out.1 = cart_items db /\ orders out.1 = orders db
        /\ counters out.1 = counters db
        /\ updateProduct id payload out.1 = out).
Proof.
  split.
  - intros Hp. unfold updateProduct. by rewrite Hp.
  - intros p Hp out.
    assert (out = (set_products <[id := merge_product payload p]> db,
                   Some (id, merge_product payload p))) as ->.
    { subst out. unfold updateProduct. rewrite Hp. cbn [products set_products].
      by rewrite lookup_insert_eq. }
    cbn [fst snd]. unfold getProductById. cbn [products set_products].
    rewrite lookup_insert_eq.
    split; [done|]. split; [done|]. split; [done|].
    split; [by intros id' Hne; rewrite lookup_insert_ne|].
    split; [done|]. split; [done|]. split; [done|].
    assert (merge_product payload (merge_product payload p) = merge_product payload p) as Hm.
    { unfold merge_product. destruct payload as [[?|] [?|] [?|] [?|] [?|] [?|]]; by cbn. }
    unfold updateProduct. cbn [products set_products]. rewrite lookup_insert_eq, Hm.
    rewrite insert_insert_eq, lookup_insert_eq. unfold set_products.
    cbn [cart_items orders counters products]. by rewrite insert_insert_eq.
Qed.

(** Raising the price of [A] and nothing else. *)
Lemma updateProduct_merges_price :
  (updateProduct 1 (ProductPayload None None (Some 120) None None None) (store_A 5 ∅)).2
  = Some (1, Product (js "A") (js "A phone") 120 (js "/uploads/a.png") 5 (js "Phone") 1000)
  /\ updateProduct 2 (ProductPayload None None (Some 120) None None None) (store_A 5 ∅)
     = (store_A 5 ∅, None).
Proof.
  destruct (updateProduct_merges 1 (ProductPayload None None (Some 120) None None None)
              (store_A 5 ∅)) as [_ Hupd].
  destruct (updateProduct_merges 2 (ProductPayload None None (Some 120) None None None)
              (store_A 5 ∅)) as [Hnone _].
  split; [|by apply Hnone].
  destruct (Hupd (product_A 5) eq_refl) as [Hr _]. exact Hr.
Defined.

(** The line of the cart page for a row and its product. *)
Lemma getCartItems_omap (userId : Z) (db : firestore) :
  getCartItems userId db
  = omap (fun d => (fun p => CartLine (c_product_id d.2) (c_quantity d.2) (p_name p)
                                (p_price p) (p_image_url p) (p_stock p))
                   <$> products db !! c_product_id d.2) (cart_of userId db).
Proof.
  unfold getCartItems. destruct (cart_of userId db) as [|d ds]; [done|].
  apply list_omap_ext. apply Forall2_same_length_lookup_2; [done|].
  intros i x y Hx Hy. assert (x = y) as -> by congruence.
  by destruct (products db !! c_product_id y.2).
Qed.

Lemma getCartItems_elem_of (userId : Z) (db : firestore) (line : cart_line) :
  line ∈ getCartItems userId db
  <-> exists k row p,
        cart_items db !! k = Some row /\ c_user_id row = userId
        /\ products db !! c_product_id row = Some p
        /\ line = CartLine (c_product_id row) (c_quantity row) (p_name p) (p_price p)
                    (p_image_url p) (p_stock p).
Proof.
  rewrite getCartItems_omap, list_elem_of_omap. unfold cart_of. split.
  - intros ([k row] & Hin & Hl). apply list_elem_of_filter in Hin as [Hu Hin].
    apply elem_of_map_to_list in Hin. cbn in Hl, Hu.
    destruct (products db !! c_product_id row) as [p|] eqn:Hp; [|done].
    injection Hl as <-. by exists k, row, p.
  - intros (k & row & p & Hrow & Hu & Hp & ->). exists (k, row). split.
    + apply list_elem_of_filter. split; [done|]. by apply elem_of_map_to_list.
    + cbn. by rewrite Hp.
Qed.

(** [deleteProduct] is idempotent; afterwards the id reads [null], no cart
    row of any user references it, the cart page of every user shows no line
    for it, and deleting an id that no product and no cart row carries
    leaves the store as it is. *)
Theorem deleteProduct_idempotent (id : Z) (db : firestore) :
  deleteProduct id (deleteProduct id db) = deleteProduct id db
  /\ getProductById id (deleteProduct id db) = None
  /\ (forall k row, cart_items (deleteProduct id db) !! k = Some row -> c_product_id row <> id)
  /\ (forall userId line, line ∈ getCartItems userId (deleteProduct id db) ->
        l_product_id line <> id)
  /\ (products db !! id = None ->
      (forall k row, cart_items db !! k = Some row -> c_product_id row <> id) ->
      deleteProduct id db = db).
Proof.
  split; [|split; [|split; [|split]]].
  - unfold deleteProduct, set_cart_items, set_products. cbn [products cart_items orders counters].
    rewrite delete_delete_eq. f_equal.
    apply map_eq. intros k. apply option_eq. intros row.
    rewrite !map_lookup_filter_Some. tauto.
  - unfold getProductById, deleteProduct. cbn. by rewrite lookup_delete_eq.
  - intros k row Hrow. cbn in Hrow. by apply map_lookup_filter_Some in Hrow as [_ ?].
  - intros userId line Hline.
    apply getCartItems_elem_of in Hline as (k & row & p & _ & _ & Hp & ->). cbn.
    intros Heq. unfold deleteProduct in Hp. cbn in Hp.
    rewrite Heq, lookup_delete_eq in Hp. done.
  - intros Hp Hrows. unfold deleteProduct, set_cart_items, set_products.
    destruct db as [ps cs os ns]. cbn [products cart_items orders counters] in *.
    rewrite delete_id by done. f_equal.
    apply map_filter_id. intros k row Hrow. cbn. by eapply Hrows.
Qed.

(** ** What a checkout writes besides stock and cart *)

Lemma counters_after_line_writes (db : firestore) (docs : list ((Z * Z) * cart_row))
    (m : gmap string Z) :
  counters_after (flat_map (line_writes db) docs) m = m.
Proof.
  unfold counters_after. revert m. induction docs as [|d docs IH]; intros m; [done|].
  cbn [flat_map]. rewrite foldl_app, IH. unfold line_writes.
  by destruct (products db !! c_product_id d.2).
Qed.

(** A checkout on a non-empty cart always takes an order id: it either
    fails, leaving only the counter advanced, or writes the order under the
    id it took. *)
Lemma createOrder_nonempty_cases (raw : bool) (userId : Z) (sh : shipping) (now : Z)
    (db : firestore) :
  cart_of userId db <> [] ->
  let out := createOrder raw userId sh now db in
  let orderId := counter_value "orders" db in
  (out.1 = counter_bumped "orders" db /\ exists e, out.2 = Return (Failed e))
  \/ (counters out.1 = counters (counter_bumped "orders" db)
      /\ orders out.1 = <[orderId := placed_order userId sh now db (cart_of userId db)]> (orders db)
      /\ (forall id, is_Some (products out.1 !! id) <-> is_Some (products db !! id))
      /\ exists o, out.2 = Return (Ok o)).
Proof.
  intros Hne out orderId. subst out.
  rewrite (createOrder_nonempty _ _ _ _ _ Hne). cbn zeta. fold orderId.
  unfold runTransaction.
  destruct (order_transaction raw userId orderId sh now (cart_of userId db)
              (counter_bumped "orders" db) []) as [[u ws]|e] eqn:Hrun.
  - apply order_transaction_Return in Hrun as [Hall ->].
    destruct (commit _ (counter_bumped "orders" db)) as [db2|] eqn:Hcommit.
    + right. apply commit_Some in Hcommit. cbn [fst snd]. rewrite Hcommit.
      cbn [counters orders products]. split; [|split; [|split; [|by eexists]]].
      * apply (counters_after_line_writes (counter_bumped "orders" db)).
      * apply (orders_after_line_writes (counter_bumped "orders" db)).
      * intros id. apply products_after_dom.
    + left. split; [done|by eexists].
  - left. split; [done|by eexists].
Qed.

Lemma createOrder_products_dom (raw : bool) (userId : Z) (sh : shipping) (now : Z)
    (db : firestore) (id : Z) :
  is_Some (products (createOrder raw userId sh now db).1 !! id) <-> is_Some (products db !! id).
Proof.
  destruct (decide (cart_of userId db = [])) as [Hnil|Hne].
  - by rewrite (createOrder_empty _ _ _ _ _ Hnil).
  - destruct (createOrder_nonempty_cases raw userId sh now db Hne)
      as [[-> _]|(_ & _ & Hdom & _)]; [done|apply Hdom].
Qed.

Lemma createOrder_counter_value (raw : bool) (userId : Z) (sh : shipping) (now : Z)
    (db : firestore) (key : string) :
  key <> "orders" ->
  counter_value key (createOrder raw userId sh now db).1 = counter_value key db.
Proof.
  intros Hkey. destruct (decide (cart_of userId db = [])) as [Hnil|Hne].
  - by rewrite (createOrder_empty _ _ _ _ _ Hnil).
  - unfold counter_value.
    destruct (createOrder_nonempty_cases raw userId sh now db Hne)
      as [[-> _]|(-> & _)]; cbn; by rewrite lookup_insert_ne.
Qed.

(** [createOrder] on an empty cart reports "Your cart is empty." and writes
    nothing, not even the order counter.  On a non-empty cart it takes the
    next order id whatever the outcome: a failed checkout leaves a gap in
    the order ids, and a successful one files the order under the id taken.
    On a store whose order ids were all issued by the counter no existing
    order is ever overwritten, and the ids stay issued. *)
Theorem createOrder_takes_an_order_id (raw : bool) (userId : Z) (sh : shipping) (now : Z)
    (db : firestore) :
  (cart_of userId db = [] ->
     createOrder raw userId sh now db = (db, Return (Failed (js "Your cart is empty."))))
  /\ (cart_of userId db <> [] ->
        counters (createOrder raw userId sh now db).1
        = <["orders" := counter_value "orders" db + 1]> (counters db)
        /\ forall id, id <> counter_value "orders" db ->
             orders (createOrder raw userId sh now db).1 !! id = orders db !! id)
  /\ (order_ids_issued db ->
        order_ids_issued (createOrder raw userId sh now db).1
        /\ forall id o, orders db !! id = Some o ->
             orders (createOrder raw userId sh now db).1 !! id = Some o).
Proof.
  split; [apply createOrder_empty|]. split.
  - intros Hne.
    destruct (createOrder_nonempty_cases raw userId sh now db Hne)
      as [[-> _]|(-> & -> & _)]; (split; [done|]); [done|].
    intros id Hid. by rewrite lookup_insert_ne.
  - intros [Hv Hids]. destruct (decide (cart_of userId db = [])) as [Hnil|Hne].
    { rewrite (createOrder_empty _ _ _ _ _ Hnil). by split. }
    assert (counter_value "orders" (createOrder raw userId sh now db).1
            = counter_value "orders" db + 1) as Hnext.
    { rewrite <- (counter_value_succ "orders" db Hv). unfold counter_value.
      by destruct (createOrder_nonempty_cases raw userId sh now db Hne)
        as [[-> _]|(-> & _)]. }
    destruct (createOrder_nonempty_cases raw userId sh now db Hne)
      as [[Hdb _]|(_ & Ho & _)].
    + split; [|by rewrite Hdb]. split; [lia|]. rewrite Hnext. intros id o.
      rewrite Hdb. cbn. intros Hid. specialize (Hids _ _ Hid). lia.
    + split.
      * split; [lia|]. rewrite Hnext, Ho. intros id o Hid.
        destruct (decide (counter_value "orders" db = id)) as [<-|Hneq]; [lia|].
        rewrite lookup_insert_ne in Hid by done. specialize (Hids _ _ Hid). lia.
      * intros id o Hid. rewrite Ho, lookup_insert_ne; [done|].
        intros <-. specialize (Hids _ _ Hid). lia.
Qed.

(** An empty cart, and a cart line over the stock, on the same store. *)
Lemma createOrder_takes_an_order_id_gap :
  createOrder firestore_sdk 8 sample_shipping 2000 (store_A 5 {[ (7, 1) := CartRow 7 1 9 ]})
  = (store_A 5 {[ (7, 1) := CartRow 7 1 9 ]}, Return (Failed (js "Your cart is empty.")))
  /\ counters (createOrder firestore_sdk 7 sample_shipping 2000
                 (store_A 5 {[ (7, 1) := CartRow 7 1 9 ]})).1 !! "orders" = Some 2.
Proof.
  destruct (createOrder_takes_an_order_id firestore_sdk 8 sample_shipping 2000
              (store_A 5 {[ (7, 1) := CartRow 7 1 9 ]})) as (Hempty & _).
  destruct (createOrder_takes_an_order_id firestore_sdk 7 sample_shipping 2000
              (store_A 5 {[ (7, 1) := CartRow 7 1 9 ]})) as (_ & Hgap & _).
  split; [by apply Hempty|].
  destruct Hgap as [-> _]; [discriminate|]. reflexivity.
Defined.

(** ** Invariants over every writing operation *)

Lemma run_operation_products_dom (raw : bool) (db : firestore) (op : operation) (id : Z) :
  is_Some (products (run_operation raw db op) !! id) <-> is_Some (products db !! id).
Proof.
  destruct op as [u p q|u p q|u p|u sh now]; cbn [run_operation].
  - by rewrite addToCart_products.
  - by rewrite updateCartItem_products.
  - done.
  - apply createOrder_products_dom.
Qed.

Lemma run_operation_product_counter (raw : bool) (db : firestore) (op : operation) :
  counter_value "products" (run_operation raw db op) = counter_value "products" db.
Proof.
  destruct op as [u p q|u p q|u p|u sh now]; cbn [run_operation].
  - rewrite addToCart_eq. destruct (products db !! p) as [product|]; [|done].
    by destruct (p_stock product <? q).
  - unfold updateCartItem. destruct (q <=? 0); [done|]. by destruct (products db !! p).
  - done.
  - by apply createOrder_counter_value.
Qed.

Lemma run_admin_products_sub (db : firestore) (op : admin_operation) (id : Z) :
  is_Some (products (run_admin db op) !! id) -> is_Some (products db !! id).
Proof.
  destruct op as [id' payload|id']; cbn [run_admin].
  - unfold updateProduct. destruct (products db !! id') as [p|] eqn:Hp; [|done].
    cbn. destruct (decide (id' = id)) as [<-|Hne].
    + by rewrite Hp.
    + by rewrite lookup_insert_ne.
  - cbn. intros [p Hp]. apply lookup_delete_Some in Hp as [_ Hp]. by eexists.
Qed.

Lemma run_admin_counters (db : firestore) (op : admin_operation) :
  counters (run_admin db op) = counters db.
Proof.
  destruct op as [id payload|id]; cbn [run_admin]; [|done].
  unfold updateProduct. by destruct (products db !! id).
Qed.

Lemma createProduct_ids_issued (raw : bool) (payload : product_fields) (now : Z)
    (db : firestore) :
  product_ids_issued db ->
  products db !! counter_value "products" db = None
  /\ product_ids_issued (createProduct raw payload now db).1
  /\ counter_value "products" (createProduct raw payload now db).1
     = counter_value "products" db + 1.
Proof.
  intros [Hv Hids]. rewrite createProduct_eq. cbn [fst]. unfold product_ids_issued.
  change (counter_value "products" (set_products _ (counter_bumped "products" db)))
    with (counter_value "products" (counter_bumped "products" db)).
  rewrite counter_value_succ by done. split; [|split; [split; [lia|]|done]].
  - destruct (products db !! counter_value "products" db) as [p|] eqn:Hp; [|done].
    specialize (Hids _ _ Hp). lia.
  - intros id p Hp. cbn [products set_products counter_bumped set_counters] in Hp.
    destruct (decide (counter_value "products" db = id)) as [<-|Hne]; [lia|].
    rewrite lookup_insert_ne in Hp by done. specialize (Hids _ _ Hp). lia.
Qed.

Lemma run_store_product_ids (raw : bool) (db : firestore) (op : store_operation) :
  product_ids_issued db ->
  product_ids_issued (run_store raw db op)
  /\ counter_value "products" db <= counter_value "products" (run_store raw db op).
Proof.
  intros Hinv. pose proof Hinv as [Hv Hids].
  destruct op as [op|op|payload now]; cbn [run_store]; unfold product_ids_issued.
  - rewrite run_operation_product_counter. split; [|lia]. split; [done|].
    intros id p Hp.
    destruct (proj1 (run_operation_products_dom raw db op id)) as [p0 Hp0]; [by eexists|].
    by eapply Hids.
  - assert (counter_value "products" (run_admin db op) = counter_value "products" db) as ->
      by (unfold counter_value; by rewrite run_admin_counters).
    split; [|lia]. split; [done|]. intros id p Hp.
    destruct (run_admin_products_sub db op id) as [p0 Hp0]; [by eexists|].
    by eapply Hids.
  - destruct (createProduct_ids_issued raw payload now db Hinv) as (_ & Hinv' & Hnext).
    split; [exact Hinv'|]. rewrite Hnext. lia.
Qed.

(** Product ids are never reissued: on a store whose product ids were all
    issued by the counter, after any sequence of cart, checkout and
    catalogue operations the ids still are, and the id [createProduct] takes
    next is in use neither now nor in the store the sequence started from --
    deleting a product does not free its id. *)
Theorem product_ids_never_reissued (raw : bool) (ops : list store_operation) (db : firestore) :
  product_ids_issued db ->
  let db' := foldl (run_store raw) db ops in
  product_ids_issued db'
  /\ counter_value "products" db <= counter_value "products" db'
  /\ forall payload now,
       exists id, (createProduct raw payload now db').2 = Return (id, new_product now payload)
                  /\ getProductById id db' = None /\ getProductById id db = None.
Proof.
  intros Hinv db'.
  assert (product_ids_issued db'
          /\ counter_value "products" db <= counter_value "products" db') as [Hinv' Hle].
  { subst db'. revert db Hinv. induction ops as [|op ops IH]; intros db Hinv; [by split|].
    cbn [foldl]. destruct (run_store_product_ids raw db op Hinv) as [Hinv1 Hle1].
    destruct (IH _ Hinv1) as [Hinv2 Hle2]. split; [done|lia]. }
  split; [done|]. split; [done|]. intros payload now.
  exists (counter_value "products" db'). rewrite createProduct_eq. split; [done|].
  unfold getProductById.
  destruct (createProduct_ids_issued raw payload now db' Hinv') as (-> & _). split; [done|].
  destruct (products db !! counter_value "products" db') as [p|] eqn:Hp; [|done].
  destruct Hinv as [_ Hids]. specialize (Hids _ _ Hp). lia.
Qed.

(** Create a product, delete it, create another: the id the second one
    gets is not the one the first had. *)
Lemma product_ids_never_reissued_after_delete :
  let payload := ProductFields (js "B") (js "A case") 10 (js "/uploads/b.png") 3 (js "Accessory") in
  let db := (createProduct firestore_sdk payload 1000 (Firestore ∅ ∅ ∅ ∅)).1 in
  getProductById 1 db = Some (1, new_product 1000 payload)
  /\ exists id,
       (createProduct firestore_sdk payload 3000
          (foldl (run_store firestore_sdk) db [Admin (DeleteProduct 1)])).2
       = Return (id, new_product 3000 payload)
       /\ getProductById id db = None.
Proof.
  intros payload db. split; [reflexivity|].
  destruct (product_ids_never_reissued firestore_sdk [Admin (DeleteProduct 1)] db)
    as (_ & _ & Hnext).
  - apply createProduct_ids_issued. split; [vm_compute; discriminate|].
    intros id p Hp. cbn [products] in Hp. by rewrite lookup_empty in Hp.
  - destruct (Hnext payload 3000) as (id & Hr & _ & Hfree). by exists id.
Defined.

(** ** The cart page and the cart count *)











(** ** Cart rows and the catalogue *)

Lemma run_admin_products_dom_update (id : Z) (payload : product_payload) (db : firestore)
    (id' : Z) :
  is_Some (products (updateProduct id payload db).1 !! id') <-> is_Some (products db !! id').
Proof.
  unfold updateProduct. destruct (products db !! id) as [p|] eqn:Hp; [|done]. cbn.
  destruct (decide (id = id')) as [<-|Hne].
  - rewrite lookup_insert_eq, Hp. split; by eexists.
  - by rewrite lookup_insert_ne.
Qed.





(** The cart page joins each row of the user with the live product: a line
    is on the page exactly when the user has a row for a product that
    exists, and it shows the row's quantity with the product's current name,
    price, image and stock; rows of other users and rows whose product is
    gone give no line, so the page is never longer than the cart. *)
Theorem getCartItems_joins_live_products (userId : Z) (db : firestore) :
  (forall line,
     line ∈ getCartItems userId db
     <-> exists k row p,
           cart_items db !! k = Some row /\ c_user_id row = userId
           /\ products db !! c_product_id row = Some p
           /\ line = CartLine (c_product_id row) (c_quantity row) (p_name p) (p_price p)
                       (p_image_url p) (p_stock p))
  /\ (length (getCartItems userId db) <= length (cart_of userId db))%nat
  /\ (forall id payload,
        l_product_id <$> getCartItems userId (updateProduct id payload db).1
        = l_product_id <$> getCartItems userId db).
Proof.
  split; [apply getCartItems_elem_of|]. split.
  - rewrite getCartItems_omap. induction (cart_of userId db) as [|d ds IH]; [done|].
    cbn. destruct (products db !! c_product_id d.2); cbn; lia.
  - intros id payload. rewrite !getCartItems_omap.
    assert (cart_of userId (updateProduct id payload db).1 = cart_of userId db) as ->.
    { unfold cart_of, updateProduct. by destruct (products db !! id). }
    induction (cart_of userId db) as [|d ds IH]; [done|]. cbn.
    pose proof (run_admin_products_dom_update id payload db (c_product_id d.2)) as Hdom.
    destruct (products (updateProduct id payload db).1 !! c_product_id d.2) as [p1|],
             (products db !! c_product_id d.2) as [p2|]; cbn.
    + by f_equal.
    + destruct (proj1 Hdom) as [? ?]; [by eexists|done].
    + destruct (proj2 Hdom) as [? ?]; [by eexists|done].
    + done.
Qed.

(** ** Removing and setting a cart line *)

(** [removeCartItem] never fails and is idempotent: removing a row that is
    not there leaves the store as it is, removing twice is removing once;
    only the row of the pair goes, and the catalogue, the orders and the
    counters are untouched. *)
Theorem removeCartItem_idempotent (userId productId : Z) (db : firestore) :
  (cart_items db !! (userId, productId) = None -> removeCartItem userId productId db = db)
  /\ removeCartItem userId productId (removeCartItem userId productId db)
     = removeCartItem userId productId db
  /\ cart_items (removeCartItem userId productId db) !! (userId, productId) = None
  /\ (forall k, k <> (userId, productId) ->
        cart_items (removeCartItem userId productId db) !! k = cart_items db !! k)
  /\ products (removeCartItem userId productId db) = products db
  /\ orders (removeCartItem userId productId db) = orders db
  /\ counters (removeCartItem userId productId db) = counters db.
Proof.
  unfold removeCartItem, set_cart_items. cbn [products cart_items orders counters].
  split; [|split; [|split; [|split]]].
  - intros Hnone. rewrite delete_id by done. by destruct db.
  - by rewrite delete_delete_eq.
  - apply lookup_delete_eq.
  - intros k Hk. by apply lookup_delete_ne.
  - done.
Qed.

(** [updateCartItem] sets the line, it does not add to it.  A quantity of 0
    or less removes the row and reports the removal whether or not the
    product still exists; a positive quantity for a missing product is
    refused and writes nothing; a positive quantity for a product in the
    catalogue leaves the row at [min quantity stock] whatever it held
    before, so the same update sent twice has the effect of one. *)
Theorem updateCartItem_sets_the_line (userId productId quantity : Z) (db : firestore) :
  (quantity <= 0 ->
     updateCartItem userId productId quantity db
     = (removeCartItem userId productId db, Ok true))
  /\ (0 < quantity -> products db !! productId = None ->
        updateCartItem userId productId quantity db = (db, Failed (js "Product not found.")))
  /\ (forall product, 0 < quantity -> products db !! productId = Some product ->
        (updateCartItem userId productId quantity db).2 = Ok false
        /\ cart_items (updateCartItem userId productId quantity db).1 !! (userId, productId)
           = Some (CartRow userId productId (Z.min quantity (p_stock product)))
        /\ (forall raw q,
              (updateCartItem userId productId quantity
                 (addToCart raw userId productId q db).1).1
              = (updateCartItem userId productId quantity db).1)
        /\ updateCartItem userId productId quantity
             (updateCartItem userId productId quantity db).1
           = updateCartItem userId productId quantity db).
Proof.
  split; [|split].
  - intros Hq. unfold updateCartItem.
    by replace (quantity <=? 0) with true by (symmetry; apply Z.leb_le; lia).
  - intros Hq Hp. unfold updateCartItem.
    replace (quantity <=? 0) with false by (symmetry; apply Z.leb_gt; lia). by rewrite Hp.
  - intros product Hq Hp.
    assert (forall db', products db' = products db ->
              updateCartItem userId productId quantity db'
              = (set_cart_items
                   <[(userId, productId) :=
                       CartRow userId productId (Z.min quantity (p_stock product))]> db',
                 Ok false)) as Hupd.
    { intros db' Hdb'. unfold updateCartItem.
      replace (quantity <=? 0) with false by (symmetry; apply Z.leb_gt; lia).
      by rewrite Hdb', Hp. }
    rewrite !(Hupd db eq_refl). cbn [fst snd cart_items set_cart_items].
    split; [done|]. split; [by rewrite lookup_insert_eq|]. split.
    + intros raw q. rewrite (Hupd _ (addToCart_products raw userId productId q db)).
      cbn [fst]. rewrite addToCart_eq, Hp.
      destruct (p_stock product <? q); [done|].
      unfold set_cart_items. cbn [fst products cart_items orders counters].
      by rewrite insert_insert_eq.
    + rewrite (Hupd (set_cart_items _ db) eq_refl). unfold set_cart_items.
      cbn [products cart_items orders counters]. by rewrite insert_insert_eq.
Qed.

(** Setting the line to 9 against a stock of 5, after adding 2. *)
Lemma updateCartItem_sets_the_line_over_stock :
  cart_items (updateCartItem 7 1 9 (addToCart firestore_sdk 7 1 2 (store_A 5 ∅)).1).1 !! (7, 1)
  = Some (CartRow 7 1 5)
  /\ updateCartItem 7 1 0 (store_A 5 {[ (7, 1) := CartRow 7 1 3 ]}) = (store_A 5 ∅, Ok true)
  /\ updateCartItem 7 2 1 (store_A 5 ∅) = (store_A 5 ∅, Failed (js "Product not found.")).
Proof.
  destruct (updateCartItem_sets_the_line 7 1 9 (store_A 5 ∅)) as (_ & _ & Hset).
  destruct (updateCartItem_sets_the_line 7 1 0 (store_A 5 {[ (7, 1) := CartRow 7 1 3 ]}))
    as (Hzero & _).
  destruct (updateCartItem_sets_the_line 7 2 1 (store_A 5 ∅)) as (_ & Hmissing & _).
  destruct (Hset (product_A 5)) as (_ & Hrow & Hafter & _); [lia|reflexivity|].
  split; [|split].
  - rewrite Hafter, Hrow. reflexivity.
  - rewrite Hzero by lia. reflexivity.
  - apply Hmissing; [lia|reflexivity].
Defined.

Lemma run_operation_cart_within_stock (raw : bool) (db : firestore) (op : operation) :
  cart_edit op -> cart_within_stock db -> cart_within_stock (run_operation raw db op).
Proof.
  intros Hop Hdb. destruct op as [u p q|u p q|u p|u sh now]; [| | |done];
    cbn [run_operation]; intros k row p0 Hrow Hp0.
  - rewrite addToCart_products in Hp0. rewrite addToCart_eq in Hrow.
    destruct (products db !! p) as [product|] eqn:Hp; [|by eapply Hdb].
    destruct (p_stock product <? q); [by eapply Hdb|]. cbn in Hrow.
    destruct (decide ((u, p) = k)) as [<-|Hne].
    + rewrite lookup_insert_eq in Hrow. injection Hrow as <-. cbn in *.
      assert (p0 = product) as -> by congruence. lia.
    + rewrite lookup_insert_ne in Hrow by done. by eapply Hdb.
  - rewrite updateCartItem_products in Hp0. unfold updateCartItem in Hrow.
    destruct (q <=? 0).
    + cbn in Hrow. apply lookup_delete_Some in Hrow as [_ Hrow]. by eapply Hdb.
    + destruct (products db !! p) as [product|] eqn:Hp; [|by eapply Hdb]. cbn in Hrow.
      destruct (decide ((u, p) = k)) as [<-|Hne].
      * rewrite lookup_insert_eq in Hrow. injection Hrow as <-. cbn in *.
        assert (p0 = product) as -> by congruence. lia.
      * rewrite lookup_insert_ne in Hrow by done. by eapply Hdb.
  - cbn in Hrow, Hp0. apply lookup_delete_Some in Hrow as [_ Hrow]. by eapply Hdb.
Qed.

(** No cart edit leaves a row above its product's stock: [addToCart] and
    [updateCartItem] write at most the stock they read, so over any sequence
    of adds, updates and removals every row stays within the stock of its
    product; the row they write is within stock even when the row it
    replaces was not. *)
Theorem cart_edits_stay_within_stock (raw : bool) (ops : list operation) (db : firestore) :
  Forall cart_edit ops ->
  (cart_within_stock db -> cart_within_stock (run_operations raw ops db))
  /\ (forall u p q row product,
        cart_items (addToCart raw u p q db).1 !! (u, p) = Some row ->
        (addToCart raw u p q db).2 = Return (Ok tt) ->
        products db !! p = Some product -> c_quantity row <= p_stock product)
  /\ (forall u p q row product,
        cart_items (updateCartItem u p q db).1 !! (u, p) = Some row ->
        products db !! p = Some product -> c_quantity row <= p_stock product).
Proof.
  intros Hops. split; [|split].
  - unfold run_operations. revert db. induction Hops as [|op ops Hop _ IH]; intros db Hdb;
      [done|].
    cbn [foldl]. by apply IH, run_operation_cart_within_stock.
  - intros u p q row product Hrow Hok Hp. rewrite addToCart_eq, Hp in Hrow, Hok.
    destruct (p_stock product <? q); [done|]. cbn in Hrow. rewrite lookup_insert_eq in Hrow.
    injection Hrow as <-. cbn. lia.
  - intros u p q row product Hrow Hp. unfold updateCartItem in Hrow.
    destruct (q <=? 0).
    + cbn in Hrow. by rewrite lookup_delete_eq in Hrow.
    + rewrite Hp in Hrow. cbn in Hrow. rewrite lookup_insert_eq in Hrow.
      injection Hrow as <-. cbn. lia.
Qed.

(** A row of 9 left over from a stock of 9 that an edit lowered to 5: adding
    1 brings the row down to 5. *)
Lemma cart_edits_stay_within_stock_after_drop :
  cart_items (addToCart firestore_sdk 7 1 1 (store_A 5 {[ (7, 1) := CartRow 7 1 9 ]})).1 !! (7, 1)
  = Some (CartRow 7 1 5)
  /\ cart_within_stock
       (run_operations firestore_sdk [AddToCart 7 1 2; UpdateCartItem 7 1 9; RemoveCartItem 8 1]
          (store_A 5 ∅)).
Proof.
  destruct (cart_edits_stay_within_stock firestore_sdk
              [AddToCart 7 1 2; UpdateCartItem 7 1 9; RemoveCartItem 8 1] (store_A 5 ∅))
    as (Hinv & _); [by repeat constructor|].
  split; [reflexivity|]. apply Hinv. intros k row p Hrow. cbn [store_A cart_items] in Hrow.
  by rewrite lookup_empty in Hrow.
Defined.

(** ** Browsing the catalogue *)

Lemma candidates_NoDup (category : jsstring) (db : firestore) : NoDup (candidates category db).
Proof.
  unfold candidates. rewrite omap_docToObject.
  destruct category; [|apply NoDup_filter]; apply NoDup_map_to_list.
Qed.

Lemma newest_first_Sorted (l : list (Z * product)) :
  StronglySorted (fun a b => p_created_at b.2 <= p_created_at a.2) (js_sort newest_first l).
Proof.
  apply Sorted_StronglySorted; [intros a b c; lia|].
  eapply Sorted_weaken; [|apply (js_sort_Sorted newest_first)].
  - intros a b. unfold keeps_before, newest_first. lia.
  - intros x y. unfold newest_first. lia.
Qed.

(** Without a query [listProducts] lists the whole catalogue, or the whole
    category when one is given, each product once, newest first. *)
Theorem listProducts_without_query (U : Unicode) (category : jsstring) (db : firestore) :
  (forall id p,
     (id, p) ∈ listProducts category [] db
     <-> products db !! id = Some p /\ (category = [] \/ p_category p = category))
  /\ NoDup (listProducts category [] db)
  /\ StronglySorted (fun a b => p_created_at b.2 <= p_created_at a.2)
       (listProducts category [] db).
Proof.
  unfold listProducts. split; [|split].
  - intros id p. rewrite js_sort_Permutation. apply candidates_elem_of.
  - rewrite js_sort_Permutation. apply candidates_NoDup.
  - apply newest_first_Sorted.
Qed.

Lemma startsWith_refl (s : jsstring) : startsWith s s = true.
Proof. induction s as [|c s IH]; [done|]. cbn. by rewrite N.eqb_refl. Qed.

Lemma startsWith_includes (s key : jsstring) :
  startsWith s key = true -> includes s key = true.
Proof. intros Hs. destruct s; cbn [includes]; by rewrite Hs. Qed.

Section MatchFacts.

Context `{Unicode}.

Lemma listProducts_elem_of (category q : jsstring) (db : firestore) (x : Z * product) :
  q <> [] ->
  x ∈ listProducts category q db <-> x ∈ candidates category db /\ 0 < query_score q x.
Proof.
  intros Hq. rewrite listProducts_undecorated, js_sort_Permutation, list_elem_of_filter by done.
  tauto.
Qed.

(** The score is positive exactly when one of the four containment tests
    holds; the two bonuses for an equal name and for a prefix only come on
    top of the one for containment. *)
Lemma query_score_positive_iff (q : jsstring) (x : Z * product) :
  let key := normalizeText q in
  let tokens := query_tokens key in
  let name := normalizeText (p_name x.2) in
  let desc := normalizeText (p_description x.2) in
  0 < query_score q x
  <-> includes name key = true \/ includes desc key = true
      \/ (tokens <> [] /\ forallb (fun t => includes name t) tokens = true)
      \/ (tokens <> [] /\ forallb (fun t => includes desc t) tokens = true).
Proof.
  intros key tokens name desc. unfold query_score, product_score.
  fold key tokens name desc.
  assert (bool_decide (name = key) = true -> startsWith name key = true) as Heq.
  { intros Hb. apply bool_decide_eq_true in Hb. rewrite Hb. apply startsWith_refl. }
  pose proof (startsWith_includes name key) as Hpre.
  assert (negb (length tokens =? 0)%nat = true <-> tokens <> []) as Htok
    by (destruct tokens; cbn; split; congruence).
  destruct (bool_decide (name = key)), (startsWith name key), (includes name key),
    (includes desc key), (negb (length tokens =? 0)%nat),
    (forallb (fun t => includes name t) tokens),
    (forallb (fun t => includes desc t) tokens); cbn;
    try (specialize (Heq eq_refl)); try (specialize (Hpre eq_refl)); try discriminate;
    (split; [intros ?; try lia; intuition auto | intros ?; try lia; intuition discriminate]).
Qed.

Lemma spec_score_bounds (q : jsstring) (a b : Z * product) :
  normalizeText (p_name a.2) = normalizeText q ->
  normalizeText (p_name b.2) <> normalizeText q ->
  spec_score q b <= 145 /\ 200 <= spec_score q a.
Proof.
  intros Ha Hb. split; unfold spec_score.
  - rewrite (bool_decide_eq_false_2 _ Hb).
    repeat match goal with
           | |- context [if ?b then _ else _] => destruct b
           end; lia.
  - rewrite Ha, startsWith_refl, (startsWith_includes _ _ (startsWith_refl _)).
    rewrite (bool_decide_eq_true_2 _ eq_refl).
    repeat match goal with
           | |- context [if ?b then _ else _] => destruct b
           end; lia.
Qed.

End MatchFacts.

(** A product is listed for a query exactly when it is a candidate and its
    normalised name or description contains the normalised query, or the
    query has tokens and one of the two contains them all; nothing else is
    listed and no match is left out. *)
Theorem listProducts_lists_the_matches (U : Unicode) (category q : jsstring) (db : firestore)
    (id : Z) (p : product) :
  q <> [] ->
  let key := normalizeText q in
  let tokens := query_tokens key in
  let name := normalizeText (p_name p) in
  let desc := normalizeText (p_description p) in
  (id, p) ∈ listProducts category q db
  <-> (products db !! id = Some p /\ (category = [] \/ p_category p = category))
      /\ (includes name key = true \/ includes desc key = true
          \/ (tokens <> [] /\ forallb (fun t => includes name t) tokens = true)
          \/ (tokens <> [] /\ forallb (fun t => includes desc t) tokens = true)).
Proof.
  intros Hq key tokens name desc.
  rewrite listProducts_elem_of, candidates_elem_of by done.
  by rewrite (query_score_positive_iff q (id, p)).
Qed.

(** The seed catalogue: [pixel] is in no name or description, [camera] is in
    the description of the iPhone only. *)
Lemma listProducts_lists_the_matches_camera :
  (1, seed_iphone 10) ∈ @listProducts ascii_runtime [] (js "camera") (two_product_catalogue 10 20)
  /\ (5, seed_earbuds 20)
       ∉ @listProducts ascii_runtime [] (js "camera") (two_product_catalogue 10 20).
Proof.
  split.
  - apply (listProducts_lists_the_matches ascii_runtime [] (js "camera")
             (two_product_catalogue 10 20) 1 (seed_iphone 10)); [discriminate|].
    split; [split; [reflexivity|by left]|]. right. left. reflexivity.
  - intros Hin.
    apply (listProducts_lists_the_matches ascii_runtime [] (js "camera")
             (two_product_catalogue 10 20) 5 (seed_earbuds 20)) in Hin as [_ Hm];
      [|discriminate].
    vm_compute in Hm. destruct Hm as [?|[?|[[_ ?]|[_ ?]]]]; discriminate.
Defined.

(** An exact name match is never listed below a product whose name is not
    an exact match: a product whose normalised name equals the normalised
    query scores at least 200, any other at most 145. *)
Theorem listProducts_exact_name_first (U : Unicode) (category q : jsstring) (db : firestore)
    (a b : Z * product) (before after : list (Z * product)) :
  q <> [] ->
  normalizeText (p_name a.2) = normalizeText q ->
  normalizeText (p_name b.2) <> normalizeText q ->
  listProducts category q db = before ++ b :: after ->
  a ∉ after.
Proof.
  intros Hq Ha Hb Hlist Hin.
  destruct (listProducts_ranked category q db Hq) as [_ Hsorted]. rewrite Hlist in Hsorted.
  assert (ranked_before q b a) as Hrank.
  { apply (StronglySorted_app_1_elem_of _ [b] after); [|by left|done].
    change (b :: after) with ([b] ++ after) in Hsorted.
    by apply StronglySorted_app_1_r in Hsorted. }
  destruct (spec_score_bounds q a b Ha Hb). unfold ranked_before in Hrank. lia.
Qed.

(** The query [a] on a catalogue with the products "A" and "Camera case". *)
Lemma listProducts_exact_name_first_A :
  let camera := Product (js "Camera case") (js "A case") 10 (js "/c.png") 3 (js "Accessory") 3000 in
  let db := Firestore (<[1 := product_A 5]> (<[2 := camera]> ∅)) ∅ ∅ ∅ in
  @listProducts ascii_runtime [] (js "a") db = [(1, product_A 5); (2, camera)]
  /\ (1, product_A 5) ∉ ([] : list (Z * product)).
Proof.
  intros camera db.
  assert (@listProducts ascii_runtime [] (js "a") db = [(1, product_A 5); (2, camera)]) as Hl
    by (vm_compute; reflexivity).
  split; [exact Hl|].
  apply (listProducts_exact_name_first ascii_runtime [] (js "a") db (1, product_A 5)
           (2, camera) [(1, product_A 5)] []); [discriminate|reflexivity| |exact Hl].
  vm_compute. discriminate.
Defined.

Lemma getFeaturedProducts_eq (limit : nat) (db : firestore) :
  getFeaturedProducts limit db = take limit (js_sort newest_first (map_to_list (products db))).
Proof. unfold getFeaturedProducts. apply omap_docToObject. Qed.

(** [getFeaturedProducts] returns the [limit] newest products, newest
    first: as many as asked for, or the whole catalogue when it is smaller,
    each a product of the catalogue, and no product left out is newer than
    one that is returned. *)
Theorem getFeaturedProducts_newest (limit : nat) (db : firestore) :
  length (getFeaturedProducts limit db) = min limit (size (products db))
  /\ NoDup (getFeaturedProducts limit db)
  /\ StronglySorted (fun a b => p_created_at b.2 <= p_created_at a.2)
       (getFeaturedProducts limit db)
  /\ (forall id p, (id, p) ∈ getFeaturedProducts limit db -> products db !! id = Some p)
  /\ (forall id p id' p',
        (id, p) ∈ getFeaturedProducts limit db ->
        products db !! id' = Some p' -> (id', p') ∉ getFeaturedProducts limit db ->
        p_created_at p' <= p_created_at p).
Proof.
  rewrite getFeaturedProducts_eq.
  set (sorted := js_sort newest_first (map_to_list (products db))).
  assert (sorted ≡ₚ map_to_list (products db)) as Hperm by apply js_sort_Permutation.
  assert (StronglySorted (fun a b => p_created_at b.2 <= p_created_at a.2) sorted) as Hsorted
    by apply newest_first_Sorted.
  assert (NoDup sorted) as Hnd by (rewrite Hperm; apply NoDup_map_to_list).
  rewrite <- (take_drop limit sorted) in Hsorted, Hnd.
  split; [|split; [|split; [|split]]].
  - rewrite length_take, Hperm. by rewrite length_map_to_list.
  - by apply NoDup_app in Hnd as [? _].
  - by apply StronglySorted_app_1_l in Hsorted.
  - intros id p Hin. apply elem_of_map_to_list. rewrite <- Hperm.
    rewrite <- (take_drop limit sorted). apply elem_of_app. by left.
  - intros id p id' p' Hin Hp' Hout.
    apply (StronglySorted_app_1_elem_of _ _ _ (id, p) (id', p') Hsorted Hin).
    apply elem_of_map_to_list in Hp'. rewrite <- Hperm, <- (take_drop limit sorted) in Hp'.
    by apply elem_of_app in Hp' as [?|?].
Qed.

(** ** Accounts *)

Lemma users_by_email_elem_of (email : jsstring) (db : database) (d : Z * user) :
  d ∈ users_by_email email db -> users db !! d.1 = Some d.2 /\ u_email d.2 = email.
Proof.
  unfold users_by_email. intros Hin. apply elem_of_take in Hin as (i & Hi & _).
  apply list_elem_of_lookup_2, list_elem_of_filter in Hi as [He Hd].
  split; [|done]. apply elem_of_map_to_list. by destruct d.
Qed.

Lemma users_by_email_nil (email : jsstring) (db : database) :
  users_by_email email db = []
  <-> forall id u, users db !! id = Some u -> u_email u <> email.
Proof.
  unfold users_by_email. split.
  - intros Hnil id u Hu He.
    assert ((id, u) ∈ filter (fun d => u_email d.2 = email) (map_to_list (users db))) as Hin
      by (apply list_elem_of_filter; split; [done|by apply elem_of_map_to_list]).
    destruct (filter _ _) as [|d l]; [by apply elem_of_nil in Hin|discriminate].
  - intros Hno. destruct (filter _ _) as [|d l] eqn:Hf; [done|exfalso].
    assert (d ∈ filter (fun d => u_email d.2 = email) (map_to_list (users db))) as Hin
      by (rewrite Hf; left).
    apply list_elem_of_filter in Hin as [He Hd]. destruct d as [id u].
    apply elem_of_map_to_list in Hd. by apply (Hno id u).
Qed.

Lemma findUserByEmail_Some (email : jsstring) (db : database) (id : Z) (u : user) :
  findUserByEmail email db = Some (id, u) -> users db !! id = Some u /\ u_email u = email.
Proof.
  unfold findUserByEmail. destruct (users_by_email email db) as [|d l] eqn:Hq; [done|].
  intros [= <- <-]. apply users_by_email_elem_of. rewrite Hq. left.
Qed.

Lemma findUserByEmail_None (email : jsstring) (db : database) :
  findUserByEmail email db = None
  <-> forall id u, users db !! id = Some u -> u_email u <> email.
Proof.
  rewrite <- users_by_email_nil. unfold findUserByEmail.
  by destruct (users_by_email email db).
Qed.

Lemma findUserByEmail_only (email : jsstring) (db : database) (id : Z) (u : user) :
  users db !! id = Some u -> u_email u = email ->
  (forall id' u', users db !! id' = Some u' -> u_email u' = email -> id' = id) ->
  findUserByEmail email db = Some (id, u).
Proof.
  intros Hu He Honly. destruct (findUserByEmail email db) as [[id' u']|] eqn:Hf.
  - apply findUserByEmail_Some in Hf as [Hu' He'].
    assert (id' = id) as -> by eauto. congruence.
  - exfalso. by apply (proj1 (findUserByEmail_None email db) Hf id u).
Qed.

Lemma createUser_eq (raw : bool) (name email h : jsstring) (now : Z) (db : database) :
  createUser raw name email h now db
  = (Database (counter_bumped "users" (store db))
       (<[counter_value "users" (store db) := User name email h 0 now]> (users db)),
     Return (counter_value "users" (store db), User name email h 0 now)).
Proof. unfold createUser. by rewrite nextId_eq. Qed.

(** Adding a user whose address is new, under the next id of the counter. *)
Lemma add_user_wf (st : firestore) (us : gmap Z user) (u : user) :
  user_ids_issued (Database st us) -> emails_unique (Database st us) ->
  (forall id v, us !! id = Some v -> u_email v <> u_email u) ->
  user_ids_issued (Database (counter_bumped "users" st) (<[counter_value "users" st := u]> us))
  /\ emails_unique (Database (counter_bumped "users" st) (<[counter_value "users" st := u]> us)).
Proof.
  intros [Hc Hids] Huniq Hnew. cbn in *. split.
  - split; cbn; rewrite counter_value_succ by done; [lia|].
    intros id v. destruct (decide (id = counter_value "users" st)) as [->|Hne].
    + lia.
    + rewrite lookup_insert_ne by done. intros Hv. specialize (Hids _ _ Hv). lia.
  - intros i j a b. cbn.
    destruct (decide (i = counter_value "users" st)) as [->|Hi],
             (decide (j = counter_value "users" st)) as [->|Hj]; [done|..].
    + rewrite lookup_insert_eq, lookup_insert_ne by done. intros [= <-] Hb Heq.
      by destruct (Hnew _ _ Hb).
    + rewrite lookup_insert_eq, lookup_insert_ne by done. intros Ha [= <-] Heq.
      by destruct (Hnew _ _ Ha).
    + rewrite !lookup_insert_ne by done. apply Huniq.
Qed.

Lemma ensureCounterDocs_present (db : firestore) : counters_present (ensureCounterDocs db).
Proof.
  intros key Hkey. unfold ensureCounterDocs. cbn [foldl].
  repeat (apply elem_of_cons in Hkey as [->|Hkey]).
  - destruct (ensure_counter_is_Some db "users") as [v Hv].
    exists v. by do 2 apply ensure_counter_lookup.
  - destruct (ensure_counter_is_Some (ensure_counter db "users") "products") as [v Hv].
    exists v. by apply ensure_counter_lookup.
  - apply ensure_counter_is_Some.
  - by apply elem_of_nil in Hkey.
Qed.

Lemma ensureCounterDocs_settled (db : firestore) :
  counters_present db -> ensureCounterDocs db = db.
Proof.
  intros Hp. unfold ensureCounterDocs. cbn [foldl].
  rewrite (ensure_counter_id db "users"), (ensure_counter_id db "products"),
    (ensure_counter_id db "orders"); [done|apply Hp; set_solver..].
Qed.

Lemma ensureCounterDocs_value (db : firestore) (key : string) :
  counter_value key (ensureCounterDocs db) = counter_value key db.
Proof. unfold ensureCounterDocs. cbn [foldl]. by rewrite !ensure_counter_value. Qed.

Lemma counter_bumped_present (key : string) (db : firestore) :
  counters_present db -> counters_present (counter_bumped key db).
Proof.
  intros Hp key' Hkey. cbn. destruct (decide (key = key')) as [->|Hne].
  - rewrite lookup_insert_eq. by eexists.
  - rewrite lookup_insert_ne by done. by apply Hp.
Qed.

Lemma seed_catalogue_eq (raw : bool) (clock : nat -> Z) (i : nat) (ps : list product_fields)
    (db : firestore) :
  exists db',
    seed_catalogue raw clock i ps db = (db', Return tt)
    /\ (counters_present db -> counters_present db')
    /\ (ps <> [] \/ products db <> ∅ -> products db' <> ∅)
    /\ counter_value "users" db' = counter_value "users" db
    /\ cart_items db' = cart_items db
    /\ orders db' = orders db.
Proof.
  revert i db. induction ps as [|p ps IH]; intros i db.
  { exists db. cbn. repeat split; try done. by intros [?|?]. }
  cbn [seed_catalogue]. rewrite nextId_eq.
  destruct (IH (S i) (set_products <[counter_value "products" db := new_product (clock i) p]>
                        (counter_bumped "products" db)))
    as (db' & Heq & Hp & Hne & Hu & Hc & Ho).
  exists db'. split; [done|]. split; [|split; [|split; [|split]]].
  - intros Hpres. apply Hp. intros key Hkey. by apply (counter_bumped_present "products" db).
  - intros _. apply Hne. right. cbn. apply insert_non_empty.
  - rewrite Hu. change (counter_value "users" (set_products ?f ?d)) with (counter_value "users" d).
    by rewrite counter_value_bumped, decide_False.
  - by rewrite Hc.
  - by rewrite Ho.
Qed.

Lemma ensure_admin_cases (raw : bool) (h : jsstring) (now : Z) (db : database) :
  exists db1,
    ensure_admin raw h now db = (db1, Return tt)
    /\ counters_present (store db1)
    /\ products (store db1) = products (store db)
    /\ cart_items (store db1) = cart_items (store db)
    /\ orders (store db1) = orders (store db)
    /\ (exists id u, users db1 !! id = Some u /\ u_email u = ADMIN_EMAIL)
    /\ (user_ids_issued db -> emails_unique db -> user_ids_issued db1 /\ emails_unique db1)
    /\ (counters_present (store db) ->
        (exists id u, users db !! id = Some u /\ u_email u = ADMIN_EMAIL) -> db1 = db).
Proof.
  unfold ensure_admin. destruct (users_by_email ADMIN_EMAIL db) as [|d l] eqn:Hq.
  - rewrite nextId_eq. eexists. split; [done|]. cbn [store users].
    pose proof (proj1 (users_by_email_nil ADMIN_EMAIL db) Hq) as Hno.
    split; [|split; [|split; [|split; [|split; [|split]]]]].
    + apply counter_bumped_present, ensureCounterDocs_present.
    + cbn. unfold ensureCounterDocs, ensure_counter. cbn [foldl].
      repeat (destruct (counters _ !! _); cbn; try done).
    + cbn. unfold ensureCounterDocs, ensure_counter. cbn [foldl].
      repeat (destruct (counters _ !! _); cbn; try done).
    + cbn. unfold ensureCounterDocs, ensure_counter. cbn [foldl].
      repeat (destruct (counters _ !! _); cbn; try done).
    + eexists _, _. by rewrite lookup_insert_eq.
    + intros [Hc Hids] Huniq. apply add_user_wf; [| |done].
      * unfold user_ids_issued. cbn [store users]. by rewrite ensureCounterDocs_value.
      * done.
    + intros _ (id & u & Hu & He). by destruct (Hno id u).
  - exists (Database (ensureCounterDocs (store db)) (users db)). split; [done|]. cbn [store users].
    split; [|split; [|split; [|split; [|split; [|split]]]]].
    + apply ensureCounterDocs_present.
    + unfold ensureCounterDocs, ensure_counter. cbn [foldl].
      repeat (destruct (counters _ !! _); cbn; try done).
    + unfold ensureCounterDocs, ensure_counter. cbn [foldl].
      repeat (destruct (counters _ !! _); cbn; try done).
    + unfold ensureCounterDocs, ensure_counter. cbn [foldl].
      repeat (destruct (counters _ !! _); cbn; try done).
    + destruct (users_by_email_elem_of ADMIN_EMAIL db d) as [Hd He]; [rewrite Hq; left|].
      by exists d.1, d.2.
    + intros [Hc Hids] Huniq. split; [|done].
      unfold user_ids_issued. cbn [store users]. by rewrite ensureCounterDocs_value.
    + intros Hp _. rewrite ensureCounterDocs_settled by done. by destruct db.
Qed.

Lemma initDb_cases (raw : bool) (h : jsstring) (now : Z) (clock : nat -> Z) (db : database) :
  exists db2,
    initDb raw h now clock db = (db2, Return tt)
    /\ counters_present (store db2)
    /\ products (store db2) <> ∅
    /\ (products (store db) <> ∅ -> products (store db2) = products (store db))
    /\ cart_items (store db2) = cart_items (store db)
    /\ orders (store db2) = orders (store db)
    /\ (exists id u, users db2 !! id = Some u /\ u_email u = ADMIN_EMAIL)
    /\ (user_ids_issued db -> emails_unique db -> user_ids_issued db2 /\ emails_unique db2)
    /\ (counters_present (store db) -> products (store db) <> ∅ ->
        (exists id u, users db !! id = Some u /\ u_email u = ADMIN_EMAIL) -> db2 = db).
Proof.
  unfold initDb.
  destruct (ensure_admin_cases raw h now db)
    as (db1 & -> & Hpres & Hprod & Hcart & Hord & Hadmin & Hwf & Hsettled).
  destruct (take 1 (map_to_list (products (store db1)))) as [|d l] eqn:Hany.
  - assert (products (store db1) = ∅) as Hempty.
    { apply map_to_list_empty_iff. by destruct (map_to_list (products (store db1))). }
    destruct (seed_catalogue_eq raw clock 0 seedProducts (store db1))
      as (st & Hseed & Hp & Hne & Hu & Hc & Ho).
    rewrite Hseed. eexists. split; [done|]. cbn [fst snd store users].
    split; [|split; [|split; [|split; [|split; [|split; [|split]]]]]]; try done.
    + by apply Hp.
    + apply Hne. by left.
    + intros Hne'. rewrite <- Hprod in Hne'. by destruct Hne'.
    + by rewrite Hc.
    + by rewrite Ho.
    + intros Hids Huniq. destruct (Hwf Hids Huniq) as [[Hc1 Hids1] Huniq1].
      split; [|done]. split; cbn; rewrite Hu; [done|apply Hids1].
    + intros _ Hne' _. rewrite <- Hprod in Hne'. by destruct Hne'.
  - exists db1. split; [done|].
    assert (products (store db1) <> ∅) as Hne.
    { intros Hempty. rewrite Hempty, map_to_list_empty in Hany. discriminate. }
    split; [|split; [|split; [|split; [|split; [|split; [|split]]]]]]; try done.
    intros Hp _ Ha. by apply Hsettled.
Qed.


Section AccountFacts.

Context `{Unicode}.

Lemma register_cases (raw : bool) (name email password hash : jsstring) (now : Z)
    (db : database) :
  let out := register raw name email password hash now db in
  let u := User (trim name) (toLowerCase (trim email)) hash 0 now in
  (out = (db, Return Invalid_input)
   /\ (trim name = [] \/ toLowerCase (trim email) = [] \/ (length password < 6)%nat))
  \/ (out = (db, Return Email_in_use)
      /\ is_Some (findUserByEmail (toLowerCase (trim email)) db))
  \/ (out = (Database (counter_bumped "users" (store db))
               (<[counter_value "users" (store db) := u]> (users db)),
             Return (Registered (counter_value "users" (store db)) u))
      /\ trim name <> [] /\ toLowerCase (trim email) <> [] /\ (6 <= length password)%nat
      /\ findUserByEmail (toLowerCase (trim email)) db = None).
Proof.
  intros out u. subst out u. unfold register.
  destruct (bool_decide (trim name = [])) eqn:Hn; cbn [orb].
  { left. apply bool_decide_eq_true in Hn. auto. }
  destruct (bool_decide (toLowerCase (trim email) = [])) eqn:He; cbn [orb].
  { left. apply bool_decide_eq_true in He. auto. }
  destruct (Nat.ltb_spec (length password) 6) as [Hp|Hp].
  { left. auto. }
  apply bool_decide_eq_false in Hn, He.
  destruct (findUserByEmail (toLowerCase (trim email)) db) as [d|] eqn:Hf.
  { right. left. split; [done|by eexists]. }
  right. right. by rewrite createUser_eq.
Qed.

Lemma findUserByEmail_added (st : firestore) (db : database) (id : Z) (u : user) :
  findUserByEmail (u_email u) db = None ->
  findUserByEmail (u_email u) (Database st (<[id := u]> (users db))) = Some (id, u).
Proof.
  intros Hnone. apply findUserByEmail_only; cbn [users].
  - by rewrite lookup_insert_eq.
  - done.
  - intros id' u'. destruct (decide (id' = id)) as [->|Hne]; [done|].
    rewrite lookup_insert_ne by done. intros Hu' He'.
    by destruct (proj1 (findUserByEmail_None _ db) Hnone id' u').
Qed.

Lemma loginWithOAuthProfile_cases (raw : bool) (profile : oauth_profile) (hash : jsstring)
    (now : Z) (db : database) :
  let out := loginWithOAuthProfile raw profile hash now db in
  let email := getProfileEmail profile in
  (email = [] /\ out = (db, Return None))
  \/ (email <> [] /\ exists d, findUserByEmail email db = Some d /\ out = (db, Return (Some d)))
  \/ (email <> [] /\ findUserByEmail email db = None
      /\ exists name,
           out = (Database (counter_bumped "users" (store db))
                    (<[counter_value "users" (store db) := User name email hash 0 now]>
                       (users db)),
                  Return (Some (counter_value "users" (store db), User name email hash 0 now)))).
Proof.
  intros out email. subst out email. unfold loginWithOAuthProfile.
  destruct (getProfileEmail profile) as [|c email] eqn:He; [by left|].
  destruct (findUserByEmail (c :: email) db) as [d|] eqn:Hf.
  { right. left. split; [done|]. by exists d. }
  right. right. split; [done|]. split; [done|]. rewrite createUser_eq. by eexists.
Qed.

Lemma run_account_wf (raw : bool) (db : database) (op : account_operation) :
  user_ids_issued db -> emails_unique db ->
  user_ids_issued (run_account raw db op) /\ emails_unique (run_account raw db op).
Proof.
  intros Hids Huniq. destruct op as [name email password hash now|profile hash now|h now clock];
    cbn [run_account].
  - destruct (register_cases raw name email password hash now db)
      as [[-> _]|[[-> _]|[-> (_ & _ & _ & Hnone)]]]; [done..|].
    cbn [fst]. destruct db as [st us]. apply add_user_wf; [done..|].
    apply (proj1 (findUserByEmail_None _ _) Hnone).
  - destruct (loginWithOAuthProfile_cases raw profile hash now db)
      as [[_ ->]|[(_ & d & _ & ->)|(_ & Hnone & name & ->)]]; [done..|].
    cbn [fst]. destruct db as [st us]. apply add_user_wf; [done..|].
    apply (proj1 (findUserByEmail_None _ _) Hnone).
  - destruct (initDb_cases raw h now clock db) as (db2 & -> & _ & _ & _ & _ & _ & _ & Hwf & _).
    by apply Hwf.
Qed.

Lemma run_account_admins (raw : bool) (db : database) (op : account_operation)
    (id : Z) (u : user) :
  sign_up op -> users (run_account raw db op) !! id = Some u -> u_is_admin u <> 0 ->
  users db !! id = Some u.
Proof.
  intros Hop Hu Hadmin.
  destruct op as [name email password hash now|profile hash now|h now clock];
    cbn [run_account] in Hu; [| |done].
  - destruct (register_cases raw name email password hash now db)
      as [[Heq _]|[[Heq _]|[Heq _]]]; rewrite Heq in Hu; [done..|].
    cbn [fst users] in Hu.
    destruct (decide (id = counter_value "users" (store db))) as [->|Hne].
    + rewrite lookup_insert_eq in Hu. injection Hu as <-. by destruct Hadmin.
    + by rewrite lookup_insert_ne in Hu.
  - destruct (loginWithOAuthProfile_cases raw profile hash now db)
      as [[_ Heq]|[(_ & d & _ & Heq)|(_ & _ & name & Heq)]]; rewrite Heq in Hu; [done..|].
    cbn [fst users] in Hu.
    destruct (decide (id = counter_value "users" (store db))) as [->|Hne].
    + rewrite lookup_insert_eq in Hu. injection Hu as <-. by destruct Hadmin.
    + by rewrite lookup_insert_ne in Hu.
Qed.

End AccountFacts.

(** With unique addresses [findUserByEmail] finds the user that has the
    address, whatever the order in which the store lists its documents; it
    answers [null] exactly when no user has the address. *)
Theorem findUserByEmail_finds_the_user (email : jsstring) (db : database) :
  emails_unique db ->
  (forall id u,
     findUserByEmail email db = Some (id, u) <-> users db !! id = Some u /\ u_email u = email)
  /\ (findUserByEmail email db = None
      <-> forall id u, users db !! id = Some u -> u_email u <> email).
Proof.
  intros Huniq. split; [|apply findUserByEmail_None].
  intros id u. split; [apply findUserByEmail_Some|].
  intros [Hu He]. apply findUserByEmail_only; [done..|].
  intros id' u' Hu' He'. apply (Huniq id' id u' u); congruence.
Qed.

(** Registrations, OAuth logins and [initDb], in any order and number, keep
    the addresses of the users distinct and their ids below the counter. *)
Theorem accounts_keep_emails_unique (U : Unicode) (raw : bool) (ops : list account_operation)
    (db : database) :
  user_ids_issued db -> emails_unique db ->
  user_ids_issued (foldl (run_account raw) db ops)
  /\ emails_unique (foldl (run_account raw) db ops).
Proof.
  revert db. induction ops as [|op ops IH]; intros db Hids Huniq; [done|].
  cbn [foldl]. destruct (run_account_wf raw db op Hids Huniq). by apply IH.
Qed.

(** Registering and logging in through OAuth never make an administrator:
    a user who is one afterwards was the same administrator before. *)
Theorem sign_up_never_grants_admin (U : Unicode) (raw : bool) (ops : list account_operation)
    (db : database) (id : Z) (u : user) :
  Forall sign_up ops ->
  users (foldl (run_account raw) db ops) !! id = Some u -> u_is_admin u <> 0 ->
  users db !! id = Some u.
Proof.
  revert db. induction ops as [|op ops IH]; intros db Hops Hu Hadmin; [done|].
  apply Forall_cons in Hops as [Hop Hops]. cbn [foldl] in Hu.
  apply (run_account_admins raw db op); [done| |done]. by apply IH.
Qed.

(** A registration that succeeds stores a user who is not an administrator
    under the trimmed name and the trimmed, lower-cased address;
    [findUserByEmail] then finds that user, and every later registration
    with an address that normalises to the same one is turned down and
    writes nothing. *)
Theorem register_once (U : Unicode) (raw : bool) (name email password hash : jsstring)
    (now : Z) (db db' : database) (id : Z) (u : user) :
  register raw name email password hash now db = (db', Return (Registered id u)) ->
  u = User (trim name) (toLowerCase (trim email)) hash 0 now
  /\ trim name <> [] /\ toLowerCase (trim email) <> [] /\ (6 <= length password)%nat
  /\ findUserByEmail (u_email u) db' = Some (id, u)
  /\ forall name' email' password' hash' now',
       toLowerCase (trim email') = u_email u ->
       exists r, register raw name' email' password' hash' now' db' = (db', Return r)
                 /\ (r = Invalid_input \/ r = Email_in_use).
Proof.
  intros Hreg.
  destruct (register_cases raw name email password hash now db)
    as [[Heq _]|[[Heq _]|[Heq (Hn & He & Hp & Hnone)]]]; rewrite Heq in Hreg; [done..|].
  injection Hreg as <- <- <-.
  assert (findUserByEmail (toLowerCase (trim email))
            (Database (counter_bumped "users" (store db))
               (<[counter_value "users" (store db) :=
                    User (trim name) (toLowerCase (trim email)) hash 0 now]> (users db)))
          = Some (counter_value "users" (store db),
                  User (trim name) (toLowerCase (trim email)) hash 0 now)) as Hfound
    by (by apply (findUserByEmail_added _ db _ (User _ _ _ _ _))).
  repeat split; try done.
  intros name' email' password' hash' now' He'. cbn [u_email] in He'.
  destruct (register_cases raw name' email' password' hash' now'
              (Database (counter_bumped "users" (store db))
                 (<[counter_value "users" (store db) :=
                      User (trim name) (toLowerCase (trim email)) hash 0 now]> (users db))))
    as [[Heq' _]|[[Heq' _]|[_ (_ & _ & _ & Hnone')]]].
  - eexists. split; [exact Heq'|by left].
  - eexists. split; [exact Heq'|by right].
  - rewrite He', Hfound in Hnone'. discriminate.
Qed.

(** An OAuth login finds the user of the profile's address or creates one,
    never an administrator; logging in again with the same profile opens
    the session for the same user and writes nothing. *)
Theorem loginWithOAuthProfile_finds_or_creates (U : Unicode) (raw : bool)
    (profile : oauth_profile) (hash hash' : jsstring) (now now' : Z) (db : database) :
  let out := loginWithOAuthProfile raw profile hash now db in
  loginWithOAuthProfile raw profile hash' now' out.1 = (out.1, out.2)
  /\ (getProfileEmail profile = [] -> out = (db, Return None))
  /\ (getProfileEmail profile <> [] ->
      exists id u,
        out.2 = Return (Some (id, u))
        /\ findUserByEmail (getProfileEmail profile) out.1 = Some (id, u)
        /\ (findUserByEmail (getProfileEmail profile) db = Some (id, u) /\ out.1 = db
            \/ findUserByEmail (getProfileEmail profile) db = None /\ u_is_admin u = 0)).
Proof.
  intros out. subst out.
  destruct (loginWithOAuthProfile_cases raw profile hash now db)
    as [[He ->]|[(He & [id u] & Hf & ->)|(He & Hnone & name & ->)]]; cbn [fst snd].
  - split; [|split; [done|done]].
    destruct (loginWithOAuthProfile_cases raw profile hash' now' db)
      as [[_ ->]|[(He' & _)|(He' & _)]]; done.
  - split; [|split; [done|]].
    + destruct (loginWithOAuthProfile_cases raw profile hash' now' db)
        as [[He' _]|[(_ & d & Hf' & ->)|(_ & Hnone & _)]]; [done| |congruence].
      congruence.
    + intros _. exists id, u. auto.
  - pose proof (findUserByEmail_added (counter_bumped "users" (store db)) db
                  (counter_value "users" (store db))
                  (User name (getProfileEmail profile) hash 0 now) Hnone) as Hfound.
    cbn [u_email] in Hfound. split; [|split; [done|]].
    + match goal with
      | |- loginWithOAuthProfile _ _ _ _ ?d = _ =>
          destruct (loginWithOAuthProfile_cases raw profile hash' now' d)
            as [[He' _]|[(_ & d' & Hf' & ->)|(_ & Hnone' & _)]]; [done| |congruence]
      end.
      congruence.
    + intros _. eexists _, _. split; [done|]. split; [exact Hfound|]. right. done.
Qed.

Lemma two_accounts_unique : emails_unique two_accounts.
Proof.
  intros i j u v Hu Hv He. cbn in Hu, Hv.
  apply lookup_insert_Some in Hu as [[<- <-]|[? Hu]];
    [|apply lookup_insert_Some in Hu as [[<- <-]|[? Hu]]; [|by rewrite lookup_empty in Hu]];
    (apply lookup_insert_Some in Hv as [[<- <-]|[? Hv]];
     [|apply lookup_insert_Some in Hv as [[<- <-]|[? Hv]]; [|by rewrite lookup_empty in Hv]]);
    first [done | by vm_compute in He].
Qed.

Lemma findUserByEmail_finds_the_user_ann :
  findUserByEmail (js "ann@x.io") two_accounts = Some (2, user_ann)
  /\ findUserByEmail (js "bob@x.io") two_accounts = None.
Proof.
  destruct (findUserByEmail_finds_the_user (js "ann@x.io") two_accounts two_accounts_unique)
    as [Hfound _].
  destruct (findUserByEmail_finds_the_user (js "bob@x.io") two_accounts two_accounts_unique)
    as [_ Hnone].
  split.
  - apply Hfound. split; reflexivity.
  - reflexivity.
Defined.

Lemma accounts_keep_emails_unique_from_first_start :
  let db := foldl (@run_account ascii_runtime false) no_accounts sample_account_operations in
  (u_email <$> users db) = <[1 := ADMIN_EMAIL]> (<[2 := js "ann@x.io"]> (<[3 := js "bob@x.io"]> ∅))
  /\ user_ids_issued db /\ emails_unique db.
Proof.
  intros db. split; [vm_compute; reflexivity|].
  apply (accounts_keep_emails_unique ascii_runtime false sample_account_operations no_accounts).
  - split; [vm_compute; discriminate|]. intros id u Hu.
    unfold no_accounts in Hu. cbn [users] in Hu. by rewrite lookup_empty in Hu.
  - intros i j u v Hu. unfold no_accounts in Hu. cbn [users] in Hu.
    by rewrite lookup_empty in Hu.
Defined.

Lemma sign_up_never_grants_admin_root :
  users two_accounts !! 1 = Some user_root.
Proof.
  apply (sign_up_never_grants_admin ascii_runtime false
           [Register (js "Eve") (js "eve@x.io") (js "secret3") (js "$2a$10$eve") 4000;
            OAuthLogin sample_profile (js "$2a$10$bob") 4001]
           two_accounts 1 user_root).
  - repeat constructor.
  - vm_compute. reflexivity.
  - vm_compute. discriminate.
Defined.

Lemma register_once_ann :
  let out := @register ascii_runtime false (js " Ann ") (js "Ann@X.io") (js "secret1")
               (js "$2a$10$ann") 3000 no_accounts in
  out.2 = Return (Registered 1 (User (js "Ann") (js "ann@x.io") (js "$2a$10$ann") 0 3000))
  /\ findUserByEmail (js "ann@x.io") out.1
     = Some (1, User (js "Ann") (js "ann@x.io") (js "$2a$10$ann") 0 3000).
Proof.
  intros out. split; [vm_compute; reflexivity|].
  apply (register_once ascii_runtime false (js " Ann ") (js "Ann@X.io") (js "secret1")
           (js "$2a$10$ann") 3000 no_accounts out.1 1
           (User (js "Ann") (js "ann@x.io") (js "$2a$10$ann") 0 3000)).
  vm_compute. reflexivity.
Defined.

(** ** The checkout page and the order *)





(** ** The description of the product form *)

Lemma is_whitespace_not_markup (c : N) :
  is_whitespace c = true -> c <> 60%N /\ c <> 62%N /\ c <> 38%N.
Proof. intros Hc. split; [|split]; intros ->; by vm_compute in Hc. Qed.

Lemma trimStart_whitespace (s : jsstring) :
  Forall (fun c => is_whitespace c = true) s -> trimStart s = [].
Proof. induction 1 as [|c s Hc _ IH]; [done|]. cbn. by rewrite Hc. Qed.

Lemma trim_infix (s : jsstring) :
  exists pre suf, s = pre ++ trim s ++ suf
                  /\ Forall (fun c => is_whitespace c = true) pre
                  /\ Forall (fun c => is_whitespace c = true) suf.
Proof.
  destruct (trimStart_split s) as (pre & Hs & Hpre).
  destruct (trimStart_split (reverse (trimStart s))) as (suf & Hr & Hsuf).
  exists pre, (reverse suf). split; [|split; [done|by apply Forall_reverse]].
  apply (f_equal reverse) in Hr. rewrite reverse_involutive, reverse_app in Hr.
  unfold trim. by rewrite <- Hr.
Qed.

Lemma trim_trim (s : jsstring) : trim (trim s) = trim s.
Proof.
  destruct (trim s) as [|c r] eqn:Ht; [done|]. rewrite <- Ht.
  destruct (last (trim s)) as [d|] eqn:Hl.
  - apply (trim_id _ c d); [by rewrite Ht| |done|by apply (trim_last s)].
    apply (trim_head s). by rewrite Ht.
  - apply last_None in Hl. congruence.
Qed.

Lemma trim_whitespace (s : jsstring) :
  Forall (fun c => is_whitespace c = true) s -> trim s = [].
Proof. intros Hs. unfold trim. rewrite (trimStart_whitespace s) by done. reflexivity. Qed.

(** *** Tags *)

Lemma strip_tags_greater_than (in_tag : bool) (s : jsstring) :
  62%N ∈ strip_tags in_tag s -> 62%N ∈ s.
Proof.
  revert in_tag. induction s as [|c s IH]; intros in_tag; [done|]. cbn [strip_tags].
  destruct in_tag.
  - destruct (N.eqb_spec c 62) as [->|Hc]; [left|].
    intros Hin. right. by apply (IH true).
  - destruct ((c =? 60)%N && bool_decide (62%N ∈ s)).
    + intros Hin. right. by apply (IH true).
    + intros [->|Hin]%elem_of_cons; [left|right]. by apply (IH false).
Qed.

Lemma strip_tags_no_tag (in_tag : bool) (s : jsstring) : has_tagb (strip_tags in_tag s) = false.
Proof.
  revert in_tag. induction s as [|c s IH]; intros in_tag; [done|]. cbn [strip_tags].
  destruct in_tag.
  - destruct (c =? 62)%N; [|done]. cbn [has_tagb]. by rewrite IH.
  - destruct ((c =? 60)%N && bool_decide (62%N ∈ s)) eqn:Hopen; [done|].
    cbn [has_tagb]. rewrite IH, orb_false_r.
    destruct (c =? 60)%N; [|done]. cbn in Hopen |- *.
    apply bool_decide_eq_false in Hopen. apply bool_decide_eq_false.
    intros Hin. by apply Hopen, (strip_tags_greater_than false).
Qed.

Lemma strip_tags_id (s : jsstring) : has_tagb s = false -> strip_tags false s = s.
Proof.
  induction s as [|c s IH]; [done|]. cbn [has_tagb strip_tags].
  intros [Hopen Hs]%orb_false_iff. rewrite Hopen. by rewrite IH.
Qed.

Lemma has_tagb_marks (s : jsstring) : has_tagb (marks s) = has_tagb s.
Proof.
  assert (forall r : jsstring, bool_decide (62%N ∈ marks r) = bool_decide (62%N ∈ r)) as Hgt.
  { intros r. apply bool_decide_ext. unfold marks. rewrite list_elem_of_filter. intuition. }
  induction s as [|c s IH]; [done|]. unfold marks in *. rewrite filter_cons.
  destruct (decide (c = 60%N \/ c = 62%N)) as [Hc|Hc].
  - cbn [has_tagb]. by rewrite IH, Hgt.
  - cbn [has_tagb]. rewrite IH. destruct (N.eqb_spec c 60) as [->|_]; [|done].
    destruct Hc. by left.
Qed.

Lemma has_tag_has_tagb (s : jsstring) : has_tag s -> has_tagb s = true.
Proof.
  intros (before & after & -> & Hin). induction before as [|c before IH].
  - cbn. by rewrite bool_decide_eq_true_2.
  - cbn [app has_tagb]. rewrite IH. apply orb_true_r.
Qed.

Lemma marks_whitespace (s : jsstring) :
  Forall (fun c => is_whitespace c = true) s -> marks s = [].
Proof.
  induction 1 as [|c s Hc _ IH]; [done|]. unfold marks in *. rewrite filter_cons, IH.
  destruct (is_whitespace_not_markup c Hc) as (? & ? & _).
  by rewrite decide_False by intuition.
Qed.

Lemma marks_trim (s : jsstring) : marks (trim s) = marks s.
Proof.
  destruct (trim_infix s) as (pre & suf & Hs & Hpre & Hsuf).
  transitivity (marks (pre ++ trim s ++ suf)); [|by rewrite <- Hs].
  unfold marks. rewrite !filter_app. fold (marks pre) (marks suf).
  rewrite (marks_whitespace pre), (marks_whitespace suf) by done. by rewrite app_nil_r.
Qed.

Lemma marks_collapse_whitespace (in_gap : bool) (s : jsstring) :
  marks (collapse_whitespace in_gap s) = marks s.
Proof.
  revert in_gap. induction s as [|c s IH]; intros in_gap; [done|].
  cbn [collapse_whitespace]. unfold marks in *. rewrite (filter_cons _ c).
  destruct (is_whitespace c) eqn:Hc.
  - destruct (is_whitespace_not_markup c Hc) as (? & ? & _).
    rewrite (decide_False (P := c = 60%N \/ c = 62%N)) by intuition.
    destruct in_gap; [done|]. rewrite filter_cons, IH.
    by rewrite decide_False by (intros [?|?]; discriminate).
  - rewrite filter_cons, IH. done.
Qed.

Lemma marks_replace_nbsp (skip : nat) (s : jsstring) :
  marks (replace_nbsp skip s) = marks (drop skip s).
Proof.
  revert skip. induction s as [|c s IH]; intros skip; [by destruct skip|].
  cbn [replace_nbsp]. destruct skip as [|skip]; [|by rewrite IH].
  cbn [drop]. destruct (matches_at nbsp_entity (c :: s)) eqn:Hm.
  - unfold marks at 1. rewrite filter_cons, decide_False by (intros [?|?]; discriminate).
    fold (marks (replace_nbsp 5 s)). rewrite IH.
    destruct s as [|c2 [|c3 [|c4 [|c5 [|c6 r]]]]];
      try (cbn in Hm; rewrite ?andb_false_r in Hm; discriminate).
    cbn in Hm. repeat (apply andb_prop in Hm as [? Hm]). cbn [drop].
    unfold marks. rewrite !(filter_cons _ _ (_ :: _)), (filter_cons _ c6 r).
    repeat match goal with
           | |- context [decide (?x = 60%N \/ ?x = 62%N)] =>
               rewrite (decide_False (P := x = 60%N \/ x = 62%N))
                 by (intros [->| ->]; discriminate)
           end.
    done.
  - unfold marks in *. rewrite !(filter_cons _ c). by rewrite (IH 0%nat).
Qed.

(** *** The entity *)

Lemma matches_at_app (pattern : list (N -> bool)) (s suf : jsstring) :
  matches_at pattern s = true -> matches_at pattern (s ++ suf) = true.
Proof.
  revert s. induction pattern as [|f pattern IH]; intros s; [done|].
  destruct s as [|c s]; [done|]. cbn. intros [-> Hm]%andb_prop. by rewrite IH.
Qed.

Lemma includes_pattern_infix (pattern : list (N -> bool)) (pre s suf : jsstring) :
  includes_pattern pattern s = true -> includes_pattern pattern (pre ++ s ++ suf) = true.
Proof.
  intros Hs. induction pre as [|c pre IH].
  - cbn [app]. induction s as [|c s IH].
    + cbn in Hs. rewrite orb_false_r in Hs. destruct pattern; [by destruct suf|done].
    + cbn [app includes_pattern] in *. apply orb_prop in Hs as [Hm|Hs].
      * change (c :: s ++ suf) with ((c :: s) ++ suf). by rewrite matches_at_app.
      * rewrite IH by done. apply orb_true_r.
  - cbn [app includes_pattern]. rewrite IH. apply orb_true_r.
Qed.

Lemma matches_at_replace_nbsp (pattern : list (N -> bool)) (s : jsstring) :
  Forall (fun f => f 32%N = false) pattern ->
  matches_at pattern (replace_nbsp 0 s) = true -> matches_at pattern s = true.
Proof.
  intros Hp. revert s. induction Hp as [|f pattern Hf _ IH]; intros s; [done|].
  destruct s as [|c s]; [done|]. cbn [replace_nbsp].
  destruct (matches_at nbsp_entity (c :: s)).
  - cbn [matches_at]. by rewrite Hf.
  - cbn [matches_at]. intros [-> Hm]%andb_prop. by apply IH.
Qed.

Lemma matches_at_nbsp_entity (c : N) (s : jsstring) :
  matches_at nbsp_entity (c :: s) = (c =? 38)%N && matches_at (tail nbsp_entity) s.
Proof. reflexivity. Qed.

Lemma replace_nbsp_no_entity (skip : nat) (s : jsstring) :
  includes_pattern nbsp_entity (replace_nbsp skip s) = false.
Proof.
  revert skip. induction s as [|c s IH]; intros skip; [by destruct skip|].
  cbn [replace_nbsp]. destruct skip as [|skip]; [|done].
  destruct (matches_at nbsp_entity (c :: s)) eqn:Hm.
  - cbn [includes_pattern]. by rewrite IH.
  - cbn [includes_pattern]. rewrite IH, orb_false_r.
    destruct (matches_at nbsp_entity (c :: replace_nbsp 0 s)) eqn:Hout; [|done].
    rewrite <- Hm. rewrite matches_at_nbsp_entity in Hout |- *.
    apply andb_prop in Hout as [-> Hout]. symmetry.
    apply (matches_at_replace_nbsp _ s) in Hout; [done|]. by repeat constructor.
Qed.

Lemma replace_nbsp_id (s : jsstring) :
  includes_pattern nbsp_entity s = false -> replace_nbsp 0 s = s.
Proof.
  induction s as [|c s IH]; [done|]. cbn [includes_pattern replace_nbsp].
  intros [-> Hs]%orb_false_iff. by rewrite IH.
Qed.

Lemma matches_at_collapse_whitespace (pattern : list (N -> bool)) (s : jsstring) :
  Forall (fun f => forall c, f c = true -> is_whitespace c = false) pattern ->
  matches_at pattern (collapse_whitespace false s) = true -> matches_at pattern s = true.
Proof.
  intros Hp. revert s. induction Hp as [|f pattern Hf _ IH]; intros s; [done|].
  destruct s as [|c s]; [done|]. cbn [collapse_whitespace].
  destruct (is_whitespace c) eqn:Hc.
  - cbn [matches_at]. intros [Hsp _]%andb_prop. by apply Hf in Hsp.
  - cbn [matches_at]. intros [-> Hm]%andb_prop. by apply IH.
Qed.

Lemma ascii_lower_letter (c v : N) :
  (ascii_lower c =? v)%N = true -> c = v \/ c = (v - 32)%N.
Proof.
  intros Hc%N.eqb_eq. unfold ascii_lower in Hc.
  destruct ((65 <=? c)%N && (c <=? 90)%N) in Hc; [right; lia|by left].
Qed.

Lemma nbsp_entity_no_whitespace :
  Forall (fun f : N -> bool => forall c, f c = true -> is_whitespace c = false) nbsp_entity.
Proof.
  unfold nbsp_entity. repeat constructor; intros c Hc.
  - by apply N.eqb_eq in Hc as ->.
  - by apply ascii_lower_letter in Hc as [-> | ->].
  - by apply ascii_lower_letter in Hc as [-> | ->].
  - by apply ascii_lower_letter in Hc as [-> | ->].
  - by apply ascii_lower_letter in Hc as [-> | ->].
  - by apply N.eqb_eq in Hc as ->.
Qed.

Lemma collapse_whitespace_no_entity (in_gap : bool) (s : jsstring) :
  includes_pattern nbsp_entity s = false ->
  includes_pattern nbsp_entity (collapse_whitespace in_gap s) = false.
Proof.
  revert in_gap. induction s as [|c s IH]; intros in_gap; [done|].
  cbn [includes_pattern collapse_whitespace]. intros [Hm Hs]%orb_false_iff.
  destruct (is_whitespace c) eqn:Hc.
  - destruct in_gap; [by apply IH|]. cbn [includes_pattern]. by rewrite IH.
  - cbn [includes_pattern]. rewrite IH, orb_false_r by done.
    destruct (matches_at nbsp_entity (c :: collapse_whitespace false s)) eqn:Hout; [|done].
    rewrite <- Hm. pose proof nbsp_entity_no_whitespace as Hp.
    rewrite matches_at_nbsp_entity in Hout |- *.
    apply andb_prop in Hout as [-> Hout]. symmetry.
    apply (matches_at_collapse_whitespace _ s) in Hout; [done|].
    by apply Forall_cons in Hp as [_ Hp].
Qed.

Lemma trim_no_entity (s : jsstring) :
  includes_pattern nbsp_entity s = false -> includes_pattern nbsp_entity (trim s) = false.
Proof.
  intros Hs. destruct (includes_pattern nbsp_entity (trim s)) eqn:Ht; [|done].
  destruct (trim_infix s) as (pre & suf & Heq & _).
  apply (includes_pattern_infix _ pre _ suf) in Ht. rewrite <- Heq in Ht. congruence.
Qed.

(** *** White space *)

Lemma collapse_whitespace_single_spaced (in_gap : bool) (s : jsstring) :
  single_spaced in_gap (collapse_whitespace in_gap s) = true.
Proof.
  revert in_gap. induction s as [|c s IH]; intros in_gap; [done|].
  cbn [collapse_whitespace]. destruct (is_whitespace c) eqn:Hc.
  - destruct in_gap; [done|]. cbn [single_spaced]. by rewrite IH.
  - cbn [single_spaced]. by rewrite Hc.
Qed.

Lemma collapse_whitespace_id (in_gap : bool) (s : jsstring) :
  single_spaced in_gap s = true -> collapse_whitespace in_gap s = s.
Proof.
  revert in_gap. induction s as [|c s IH]; intros in_gap; [done|].
  cbn [single_spaced collapse_whitespace]. destruct (is_whitespace c).
  - intros [[Hc Hg]%andb_prop Hs]%andb_prop. apply N.eqb_eq in Hc as ->.
    destruct in_gap; [done|]. by rewrite IH.
  - intros Hs. by rewrite IH.
Qed.

Lemma single_spaced_weaken (after_space : bool) (s : jsstring) :
  single_spaced after_space s = true -> single_spaced false s = true.
Proof.
  destruct s as [|c s]; [done|]. cbn. destruct (is_whitespace c); [|done].
  intros [[-> _]%andb_prop ->]%andb_prop. done.
Qed.

Lemma single_spaced_infix (after_space : bool) (pre s suf : jsstring) :
  single_spaced after_space (pre ++ s ++ suf) = true -> single_spaced false s = true.
Proof.
  revert after_space. induction pre as [|c pre IH]; intros after_space.
  - cbn [app]. intros Hs. apply (single_spaced_weaken after_space).
    clear -Hs. revert after_space Hs. induction s as [|c s IH]; intros after_space; [done|].
    cbn. destruct (is_whitespace c).
    + intros [-> Hs]%andb_prop. by rewrite (IH true).
    + apply IH.
  - cbn. destruct (is_whitespace c).
    + intros [_ Hs]%andb_prop. by apply (IH true).
    + apply IH.
Qed.

(** *** [normalizeRichDescription] *)

Lemma plain_clean (html : jsstring) :
  let plain := (normalizeRichDescription html).2 in
  has_tagb plain = false
  /\ includes_pattern nbsp_entity plain = false
  /\ single_spaced false plain = true
  /\ trim plain = plain.
Proof.
  cbn [normalizeRichDescription snd]. split; [|split; [|split]].
  - rewrite <- has_tagb_marks, marks_trim, marks_collapse_whitespace, marks_replace_nbsp.
    cbn [drop]. rewrite has_tagb_marks. apply strip_tags_no_tag.
  - apply trim_no_entity, collapse_whitespace_no_entity, replace_nbsp_no_entity.
  - destruct (trim_infix
                (collapse_whitespace false (replace_nbsp 0 (strip_tags false (trim html)))))
      as (pre & suf & Heq & _).
    apply (single_spaced_infix false pre _ suf). rewrite <- Heq.
    apply collapse_whitespace_single_spaced.
  - apply trim_trim.
Qed.

(** The plain text that [normalizeRichDescription] extracts holds no
    complete tag, no [&nbsp;] in any case, and white space only as single
    U+0020 units inside it; the [html] it returns is the trimmed input. *)
Theorem normalizeRichDescription_plain_text (html : jsstring) :
  let plain := (normalizeRichDescription html).2 in
  (normalizeRichDescription html).1 = trim html
  /\ ~ has_tag plain
  /\ includes_pattern nbsp_entity plain = false
  /\ collapse_whitespace false plain = plain
  /\ trim plain = plain.
Proof.
  destruct (plain_clean html) as (Htag & Hent & Hws & Htrim).
  intros plain. split; [done|]. split; [|split; [done|split; [|done]]].
  - intros Hhas. apply has_tag_has_tagb in Hhas. fold plain in Htag. congruence.
  - by apply collapse_whitespace_id.
Qed.

(** Plain text is a fixed point: normalising the plain text of a
    description returns it as both [html] and [plain]. *)
Theorem normalizeRichDescription_idempotent (html : jsstring) :
  let plain := (normalizeRichDescription html).2 in
  normalizeRichDescription plain = (plain, plain).
Proof.
  destruct (plain_clean html) as (Htag & Hent & Hws & Htrim).
  intros plain. fold plain in Htag, Hent, Hws, Htrim.
  unfold normalizeRichDescription. rewrite Htrim.
  by rewrite strip_tags_id, replace_nbsp_id, collapse_whitespace_id, Htrim.
Qed.

Lemma strip_tags_close (body rest : jsstring) :
  62%N ∉ body -> strip_tags true (body ++ 62%N :: rest) = 32%N :: strip_tags false rest.
Proof.
  induction body as [|c body IH]; intros Hb.
  - done.
  - cbn [app strip_tags]. destruct (N.eqb_spec c 62) as [->|_].
    + destruct Hb. left.
    + apply IH. intros Hin. apply Hb. by right.
Qed.

Lemma strip_tags_tag (body rest : jsstring) :
  62%N ∉ body -> strip_tags false (tag body ++ rest) = 32%N :: strip_tags false rest.
Proof.
  intros Hb. unfold tag. cbn [app strip_tags].
  rewrite <- app_assoc. cbn [app].
  rewrite bool_decide_eq_true_2 by (apply elem_of_app; right; left).
  cbn. by apply strip_tags_close.
Qed.

Lemma strip_tags_whitespace (w rest : jsstring) :
  Forall (fun c => is_whitespace c = true) w ->
  strip_tags false (w ++ rest) = w ++ strip_tags false rest.
Proof.
  induction 1 as [|c w Hc _ IH]; [done|]. cbn [app strip_tags].
  destruct (is_whitespace_not_markup c Hc) as (Hlt & _).
  apply N.eqb_neq in Hlt. rewrite Hlt. cbn. by rewrite IH.
Qed.

Lemma strip_tags_markup (segments : list (jsstring * jsstring)) (last : jsstring) :
  Forall (fun seg => (62%N ∉ seg.1) /\ Forall (fun c => is_whitespace c = true) seg.2)
    segments ->
  62%N ∉ last ->
  Forall (fun c => is_whitespace c = true) (strip_tags false (markup segments last)).
Proof.
  intros Hsegs Hlast. unfold markup. induction Hsegs as [|[body w] segments [Hb Hw] _ IH].
  - cbn [fmap list_fmap concat app]. rewrite <- (app_nil_r (tag last)).
    rewrite strip_tags_tag by done. by repeat constructor.
  - rewrite fmap_cons. cbn [concat fst snd]. rewrite <- !app_assoc.
    rewrite strip_tags_tag, strip_tags_whitespace by done.
    constructor; [done|]. apply Forall_app. by split.
Qed.

Lemma replace_nbsp_whitespace (s : jsstring) :
  Forall (fun c => is_whitespace c = true) s -> replace_nbsp 0 s = s.
Proof.
  induction 1 as [|c s Hc _ IH]; [done|]. cbn [replace_nbsp].
  destruct (is_whitespace_not_markup c Hc) as (_ & _ & Hamp).
  apply N.eqb_neq in Hamp. rewrite matches_at_nbsp_entity, Hamp. cbn [andb].
  by rewrite IH.
Qed.

Lemma collapse_whitespace_whitespace (in_gap : bool) (s : jsstring) :
  Forall (fun c => is_whitespace c = true) s ->
  Forall (fun c => is_whitespace c = true) (collapse_whitespace in_gap s).
Proof.
  intros Hs. revert in_gap. induction Hs as [|c s Hc _ IH]; intros in_gap; [done|].
  cbn [collapse_whitespace]. rewrite Hc. destruct in_gap; [done|]. by constructor.
Qed.

(** A description that is markup only -- tags, with nothing but white
    space between them -- has no plain text, so the product form turns it
    down. *)
Theorem normalizeRichDescription_markup_only (segments : list (jsstring * jsstring))
    (last : jsstring) :
  Forall (fun seg => (62%N ∉ seg.1) /\ Forall (fun c => is_whitespace c = true) seg.2)
    segments ->
  62%N ∉ last ->
  normalizeRichDescription (markup segments last) = (markup segments last, []).
Proof.
  intros Hsegs Hlast. unfold normalizeRichDescription.
  assert (trim (markup segments last) = markup segments last) as ->.
  { apply (trim_id _ 60%N 62%N); [|done| |done].
    - unfold markup. destruct segments as [|seg segments]; [done|].
      rewrite fmap_cons. done.
    - unfold markup, tag. rewrite app_comm_cons, !app_assoc. apply last_snoc. }
  f_equal. apply trim_whitespace, collapse_whitespace_whitespace.
  rewrite replace_nbsp_whitespace; by apply strip_tags_markup.
Qed.

(** The empty document of a rich text editor. *)
Lemma normalizeRichDescription_markup_only_empty_paragraph :
  normalizeRichDescription (js "<p> <br></p>") = (js "<p> <br></p>", []).
Proof.
  apply (normalizeRichDescription_markup_only [(js "p", js " "); (js "br", [])] (js "/p")).
  - repeat (apply Forall_cons; split); [split|split|by apply Forall_nil].
    + by apply (bool_decide_eq_false_1 (62%N ∈ js "p")).
    + by repeat constructor.
    + by apply (bool_decide_eq_false_1 (62%N ∈ js "br")).
    + by apply Forall_nil.
  - by apply (bool_decide_eq_false_1 (62%N ∈ js "/p")).
Defined.
